(** * Group-chat repository (package [repo], [ChatGroupRepo]) over a relational store

    A shallow embedding of the persistence layer of the group-chat feature:
    the three tables it touches, the ORM calls it issues, the transaction
    wrapper, and the twelve exported operations of [ChatGroupRepo].

    Go values are rendered as follows: [int64] and [int] as [Z] (the platform
    [int] is 64 bits wide, so [int64(member.ID)] is the identity), nullable
    columns ([null.Int], [null.String]) as [option], slices as [list], Go
    maps as [gmap], a pair [(value, error)] as a Rocq pair or a [Result]. *)

From stdpp Require Import gmap strings list.
From Stdlib Require Import ZArith.

Local Open Scope Z_scope.

(** ** Nullable values ([gopkg.in/guregu/null.v3]) *)

Module null.
Definition IntFrom (v : Z) : option Z := Some v.
Definition StringFrom (s : string) : option string := Some s.
Definition ValueOrZero (x : option Z) : Z := default 0 x.
Definition StringValueOrZero (x : option string) : string := default EmptyString x.
End null.

(** ** Errors *)

Inductive error : Type :=
  | ErrNoRows                                (* sql.ErrNoRows *)
  | ErrNotFound                              (* repo.ErrNotFound *)
  | ErrDriver                                (* any other failure reported by the database *)
  | Errorf (msg : string) (wrapped : error). (* fmt.Errorf("msg: %w", err) *)

Inductive Result (A : Type) : Type :=
  | Ok (a : A)
  | Err (e : error).
Arguments Ok {A} a.
Arguments Err {A} e.

(** ** Constants of the package *)

Definition ChatGroupMemberStatusNormal : Z := 1.
Definition ChatGroupMemberStatusDeleted : Z := 2.
Definition ChatGroupMessageStatusWaiting : Z := 0.
Definition ChatGroupMessageStatusSucceed : Z := 1.
Definition ChatGroupMessageStatusFailed : Z := 2.

(** ** Structs *)

Record Member : Type := mkMember {
  ID : Z;
  ModelID : string;
  ModelName : string
}.

(** Rows of [chat_group]: the nullable form read from and written to the
    table, and the plain form handed to callers. *)
Module ChatGroupN.
Record t : Type := mk { Id : option Z; UserId : option Z; Name : option string }.
Definition set_Id (v : option Z) (r : t) : t := mk v (UserId r) (Name r).
Definition set_Name (v : option string) (r : t) : t := mk (Id r) (UserId r) v.
End ChatGroupN.

Module ChatGroup.
Record t : Type := mk { Id : Z; UserId : Z; Name : string }.
End ChatGroup.

(** Rows of [chat_group_member]. *)
Module ChatGroupMemberN.
Record t : Type := mk {
  Id : option Z;
  GroupId : option Z;
  UserId : option Z;
  ModelId : option string;
  ModelName : option string;
  Status : option Z
}.
Definition set_Id (v : option Z) (r : t) : t :=
  mk v (GroupId r) (UserId r) (ModelId r) (ModelName r) (Status r).
Definition set_ModelId (v : option string) (r : t) : t :=
  mk (Id r) (GroupId r) (UserId r) v (ModelName r) (Status r).
Definition set_ModelName (v : option string) (r : t) : t :=
  mk (Id r) (GroupId r) (UserId r) (ModelId r) v (Status r).
Definition set_Status (v : option Z) (r : t) : t :=
  mk (Id r) (GroupId r) (UserId r) (ModelId r) (ModelName r) v.
End ChatGroupMemberN.

Module ChatGroupMember.
Record t : Type := mk {
  Id : Z;
  GroupId : Z;
  UserId : Z;
  ModelId : string;
  ModelName : string;
  Status : Z
}.
End ChatGroupMember.

(** Rows of [chat_group_message]. *)
Module ChatGroupMessageN.
Record t : Type := mk {
  Id : option Z;
  GroupId : option Z;
  UserId : option Z;
  Message : option string;
  Role : option Z;
  TokenConsumed : option Z;
  QuotaConsumed : option Z;
  Pid : option Z;
  MemberId : option Z;
  Status : option Z
}.
Definition empty : t := mk None None None None None None None None None None.
Definition set_Id (v : option Z) (r : t) : t :=
  mk v (GroupId r) (UserId r) (Message r) (Role r) (TokenConsumed r)
     (QuotaConsumed r) (Pid r) (MemberId r) (Status r).
Definition set_GroupId (v : option Z) (r : t) : t :=
  mk (Id r) v (UserId r) (Message r) (Role r) (TokenConsumed r)
     (QuotaConsumed r) (Pid r) (MemberId r) (Status r).
Definition set_UserId (v : option Z) (r : t) : t :=
  mk (Id r) (GroupId r) v (Message r) (Role r) (TokenConsumed r)
     (QuotaConsumed r) (Pid r) (MemberId r) (Status r).
Definition set_Message (v : option string) (r : t) : t :=
  mk (Id r) (GroupId r) (UserId r) v (Role r) (TokenConsumed r)
     (QuotaConsumed r) (Pid r) (MemberId r) (Status r).
Definition set_Role (v : option Z) (r : t) : t :=
  mk (Id r) (GroupId r) (UserId r) (Message r) v (TokenConsumed r)
     (QuotaConsumed r) (Pid r) (MemberId r) (Status r).
Definition set_TokenConsumed (v : option Z) (r : t) : t :=
  mk (Id r) (GroupId r) (UserId r) (Message r) (Role r) v
     (QuotaConsumed r) (Pid r) (MemberId r) (Status r).
Definition set_QuotaConsumed (v : option Z) (r : t) : t :=
  mk (Id r) (GroupId r) (UserId r) (Message r) (Role r) (TokenConsumed r)
     v (Pid r) (MemberId r) (Status r).
Definition set_Pid (v : option Z) (r : t) : t :=
  mk (Id r) (GroupId r) (UserId r) (Message r) (Role r) (TokenConsumed r)
     (QuotaConsumed r) v (MemberId r) (Status r).
Definition set_MemberId (v : option Z) (r : t) : t :=
  mk (Id r) (GroupId r) (UserId r) (Message r) (Role r) (TokenConsumed r)
     (QuotaConsumed r) (Pid r) v (Status r).
Definition set_Status (v : option Z) (r : t) : t :=
  mk (Id r) (GroupId r) (UserId r) (Message r) (Role r) (TokenConsumed r)
     (QuotaConsumed r) (Pid r) (MemberId r) v.
End ChatGroupMessageN.

Module ChatGroupMessage.
Record t : Type := mk {
  Id : Z;
  GroupId : Z;
  UserId : Z;
  Message : string;
  Role : Z;
  TokenConsumed : Z;
  QuotaConsumed : Z;
  Pid : Z;
  MemberId : Z;
  Status : Z
}.
End ChatGroupMessage.

(** The argument struct of [AddChatMessage] (package [repo]). *)
Record ChatGroupMessage : Type := mkChatGroupMessage {
  Message : string;
  Role : Z;
  TokenConsumed : Z;
  QuotaConsumed : Z;
  Pid : Z;
  MemberId : Z;
  Status : Z
}.

(** The argument struct of [UpdateChatMessage]. *)
Record ChatGroupMessageUpdate : Type := mkChatGroupMessageUpdate {
  upd_Message : string;
  upd_TokenConsumed : Z;
  upd_QuotaConsumed : Z;
  upd_Status : Z
}.

Record Group : Type := mkGroup {
  Group_Group : ChatGroup.t;
  Group_Members : list ChatGroupMember.t
}.

(** ** The database

    A table is its rows in insertion order together with the next
    auto-increment key.  The store is the three tables of the feature. *)

Record Table (R : Type) : Type := mkTable {
  rows : list R;
  next_id : Z
}.
Arguments mkTable {R} rows next_id.
Arguments rows {R} _.
Arguments next_id {R} _.

Record Store : Type := mkStore {
  chat_group : Table ChatGroupN.t;
  chat_group_member : Table ChatGroupMemberN.t;
  chat_group_message : Table ChatGroupMessageN.t
}.

Inductive TableName : Type := TChatGroup | TChatGroupMember | TChatGroupMessage.

(** The two handles the code passes to a model constructor: the plain
    connection [repo.db] and the [tx] a transaction hands to its callback. *)
Inductive Handle : Type := HDb | HTx.

Inductive OpName : Type :=
  OpCreate | OpSave | OpGet | OpFirst | OpUpdateFields | OpUpdateById | OpDelete.

(** What the database sees, in order. *)
Inductive Event : Type :=
  | EvBegin
  | EvCommit
  | EvRollback
  | EvCall (h : Handle) (t : TableName) (op : OpName).

(** The world an operation runs in: the store, the schedule of failures the
    database is going to report (one flag per call, [true] = this call
    fails; an exhausted schedule means no further failure), and the log of
    what was issued. *)
Record World : Type := mkWorld {
  store : Store;
  faults : list bool;
  log : list Event
}.

Definition St (A : Type) : Type := World → A * World.

Definition ret {A} (a : A) : St A := λ w, (a, w).
Definition bind {A B} (m : St A) (k : A → St B) : St B :=
  λ w, let '(a, w') := m w in k a w'.

Notation "x <- m ;; k" := (bind m (λ x, k))
  (at level 20, m at level 99, k at level 200, only parsing).
Notation "'call' m ;; k" := (bind m (λ _, k))
  (at level 20, m at level 99, k at level 200, only parsing).

Definition emit (e : Event) : St unit :=
  λ w, (tt, mkWorld (store w) (faults w) (log w ++ [e])).

(** One database call: logged, then failed or not as the schedule says. *)
Definition db_call (h : Handle) (t : TableName) (op : OpName) : St bool :=
  λ w, let failed := match faults w with [] => false | b :: _ => b end in
       (failed, mkWorld (store w) (tail (faults w)) (log w ++ [EvCall h t op])).

Definition get_store : St Store := λ w, (store w, w).
Definition put_store (s : Store) : St unit :=
  λ w, (tt, mkWorld s (faults w) (log w)).

(** ** The query builder and the generated models

    The ORM ([eloquent]) and the generated package [model] are not among
    the sources; what follows renders the calls the repository makes. *)

(** Modelled from the spec: the query builder is missing.  A query is the
    conjunction of its [Where] conditions, an optional descending order and
    an optional row limit.  A condition on a column compares with SQL
    equality, which a NULL never satisfies. *)
Record Query (R : Type) : Type := mkQuery {
  q_where : list (R → bool);
  q_order_desc : option (R → Z);
  q_limit : option Z
}.
Arguments mkQuery {R} _ _ _.
Arguments q_where {R} _.
Arguments q_order_desc {R} _.
Arguments q_limit {R} _.

Definition Builder {R} : Query R := mkQuery [] None None.

Definition col_eq {R} (field : R → option Z) (v : Z) (r : R) : bool :=
  match field r with Some x => bool_decide (x = v) | None => false end.

Definition col_in {R} (field : R → option Z) (vs : list Z) (r : R) : bool :=
  match field r with Some x => bool_decide (x ∈ vs) | None => false end.

Definition Where {R} (field : R → option Z) (v : Z) (q : Query R) : Query R :=
  mkQuery (q_where q ++ [col_eq field v]) (q_order_desc q) (q_limit q).

Definition WhereIn {R} (field : R → option Z) (vs : list Z) (q : Query R) : Query R :=
  mkQuery (q_where q ++ [col_in field vs]) (q_order_desc q) (q_limit q).

Definition OrderByDesc {R} (field : R → option Z) (q : Query R) : Query R :=
  mkQuery (q_where q) (Some (λ r, null.ValueOrZero (field r))) (q_limit q).

Definition Limit {R} (n : Z) (q : Query R) : Query R :=
  mkQuery (q_where q) (q_order_desc q) (Some n).

Definition matches {R} (q : Query R) (r : R) : bool :=
  forallb (λ c, c r) (q_where q).

Fixpoint insert_desc {R} (key : R → Z) (x : R) (l : list R) : list R :=
  match l with
  | [] => [x]
  | y :: l' => if bool_decide (key y < key x) then x :: l else y :: insert_desc key x l'
  end.

Definition sort_desc {R} (key : R → Z) (l : list R) : list R :=
  foldr (insert_desc key) [] l.

Definition select {R} (q : Query R) (rs : list R) : list R :=
  let matched := List.filter (matches q) rs in
  let ordered := match q_order_desc q with
                 | Some key => sort_desc key matched
                 | None => matched
                 end in
  match q_limit q with
  | Some n => take (Z.to_nat n) ordered
  | None => ordered
  end.

(** How the rows of each table sit in the store. *)
Definition Row (t : TableName) : Type :=
  match t with
  | TChatGroup => ChatGroupN.t
  | TChatGroupMember => ChatGroupMemberN.t
  | TChatGroupMessage => ChatGroupMessageN.t
  end.

Definition row_id (t : TableName) : Row t → option Z :=
  match t with
  | TChatGroup => ChatGroupN.Id
  | TChatGroupMember => ChatGroupMemberN.Id
  | TChatGroupMessage => ChatGroupMessageN.Id
  end.

Definition with_id (t : TableName) (i : Z) : Row t → Row t :=
  match t with
  | TChatGroup => ChatGroupN.set_Id (Some i)
  | TChatGroupMember => ChatGroupMemberN.set_Id (Some i)
  | TChatGroupMessage => ChatGroupMessageN.set_Id (Some i)
  end.

Definition tbl (t : TableName) : Store → Table (Row t) :=
  match t with
  | TChatGroup => chat_group
  | TChatGroupMember => chat_group_member
  | TChatGroupMessage => chat_group_message
  end.

Definition with_tbl (t : TableName) : Table (Row t) → Store → Store :=
  match t with
  | TChatGroup => λ x s, mkStore x (chat_group_member s) (chat_group_message s)
  | TChatGroupMember => λ x s, mkStore (chat_group s) x (chat_group_message s)
  | TChatGroupMessage => λ x s, mkStore (chat_group s) (chat_group_member s) x
  end.

(** What a statement does to a table. *)
Section Tables.
Context (t : TableName).

Definition table_insert (kv : Row t) (x : Table (Row t)) : Table (Row t) :=
  mkTable (rows x ++ [with_id t (next_id x) kv]) (next_id x + 1).

Definition table_update_by_id (id : Z) (row : Row t) (x : Table (Row t)) : Table (Row t) :=
  mkTable (map (λ r, if bool_decide (row_id t r = Some id) then with_id t id row else r)
               (rows x))
          (next_id x).

Definition table_update_where (q : Query (Row t)) (set : Row t → Row t)
    (x : Table (Row t)) : Table (Row t) :=
  mkTable (map (λ r, if matches q r then set r else r) (rows x)) (next_id x).

Definition table_delete_where (q : Query (Row t)) (x : Table (Row t)) : Table (Row t) :=
  mkTable (List.filter (λ r, negb (matches q r)) (rows x)) (next_id x).

Definition affected (q : Query (Row t)) (x : Table (Row t)) : Z :=
  Z.of_nat (length (List.filter (matches q) (rows x))).
End Tables.

(** Modelled from the spec: the generated models are missing.  Every call
    of a model is one statement on the handle the model was built with; a
    statement the database fails changes nothing. *)
Definition statement {A} (h : Handle) (t : TableName) (op : OpName)
    (run : Store → Result A * Store) : St (Result A) :=
  failed <- db_call h t op ;;
  if (failed : bool) then ret (Err ErrDriver)
  else s <- get_store ;;
       call put_store (run s).2 ;;
       ret (run s).1.

Section Model.
Context (t : TableName) (h : Handle).

(** [Create(ctx, kv)]: insert the row under the next auto-increment key
    (no call of the repository sets the key itself) and return the key.
    A column absent from [kv] stays NULL. *)
Definition insert_run (kv : Row t) (s : Store) : Result Z * Store :=
  (Ok (next_id (tbl t s)), with_tbl t (table_insert t kv (tbl t s)) s).

Definition Create (kv : Row t) : St (Result Z) :=
  statement h t OpCreate (insert_run kv).

(** [Model.Save(ctx, row)] on the model: insert the row, return its key. *)
Definition ModelSave (row : Row t) : St (Result Z) :=
  statement h t OpSave (insert_run row).

(** [Get(ctx, q)]: the rows the query selects. *)
Definition select_run (q : Query (Row t)) (s : Store) : Result (list (Row t)) * Store :=
  (Ok (select q (rows (tbl t s))), s).

Definition Get (q : Query (Row t)) : St (Result (list (Row t))) :=
  statement h t OpGet (select_run q).

(** [First(ctx, q)]: the first selected row, [sql.ErrNoRows] when none. *)
Definition first_run (q : Query (Row t)) (s : Store) : Result (Row t) * Store :=
  (match select q (rows (tbl t s)) with
   | [] => Err ErrNoRows
   | r :: _ => Ok r
   end, s).

Definition First (q : Query (Row t)) : St (Result (Row t)) :=
  statement h t OpFirst (first_run q).

(** [UpdateFields(ctx, kv, q)]: assign the columns of [kv] (the function
    [set]) in every row matching [q]; returns the number of rows. *)
Definition update_where_run (set : Row t → Row t) (q : Query (Row t)) (s : Store)
    : Result Z * Store :=
  (Ok (affected t q (tbl t s)), with_tbl t (table_update_where t q set (tbl t s)) s).

Definition UpdateFields (set : Row t → Row t) (q : Query (Row t)) : St (Result Z) :=
  statement h t OpUpdateFields (update_where_run set q).

(** [Delete(ctx, q)]: remove every row matching [q]. *)
Definition delete_run (q : Query (Row t)) (s : Store) : Result Z * Store :=
  (Ok (affected t q (tbl t s)), with_tbl t (table_delete_where t q (tbl t s)) s).

Definition Delete (q : Query (Row t)) : St (Result Z) :=
  statement h t OpDelete (delete_run q).

(** [UpdateById(ctx, id, row)]: the row stored under [id] takes the
    columns of [row]; returns the number of rows. *)
Definition update_by_id_run (id : Z) (row : Row t) (s : Store) : Result Z * Store :=
  (Ok (Z.of_nat (length (List.filter (λ r, bool_decide (row_id t r = Some id))
                           (rows (tbl t s))))),
   with_tbl t (table_update_by_id t id row (tbl t s)) s).

Definition UpdateById (id : Z) (row : Row t) : St (Result Z) :=
  statement h t OpUpdateById (update_by_id_run id row).

(** [row.Save(ctx)] on a row value: update the stored row when the value
    carries a key, insert it as a new row otherwise. *)
Definition Save (row : Row t) : St (option error) :=
  let id := null.ValueOrZero (row_id t row) in
  r <- (if bool_decide (0 < id) then UpdateById id row
        else ModelSave row) ;;
  match r with
  | Err err => ret (Some err)
  | Ok _ => ret None
  end.
End Model.

(** Modelled from the spec: the conversions of the generated models are
    missing.  The plain form of a row reads every nullable column with its
    zero value for NULL. *)
Definition ToChatGroup (r : ChatGroupN.t) : ChatGroup.t :=
  ChatGroup.mk (null.ValueOrZero (ChatGroupN.Id r))
               (null.ValueOrZero (ChatGroupN.UserId r))
               (null.StringValueOrZero (ChatGroupN.Name r)).

Definition ToChatGroupMember (r : ChatGroupMemberN.t) : ChatGroupMember.t :=
  ChatGroupMember.mk (null.ValueOrZero (ChatGroupMemberN.Id r))
                     (null.ValueOrZero (ChatGroupMemberN.GroupId r))
                     (null.ValueOrZero (ChatGroupMemberN.UserId r))
                     (null.StringValueOrZero (ChatGroupMemberN.ModelId r))
                     (null.StringValueOrZero (ChatGroupMemberN.ModelName r))
                     (null.ValueOrZero (ChatGroupMemberN.Status r)).

Definition ToChatGroupMessage (r : ChatGroupMessageN.t) : ChatGroupMessage.t :=
  ChatGroupMessage.mk (null.ValueOrZero (ChatGroupMessageN.Id r))
                      (null.ValueOrZero (ChatGroupMessageN.GroupId r))
                      (null.ValueOrZero (ChatGroupMessageN.UserId r))
                      (null.StringValueOrZero (ChatGroupMessageN.Message r))
                      (null.ValueOrZero (ChatGroupMessageN.Role r))
                      (null.ValueOrZero (ChatGroupMessageN.TokenConsumed r))
                      (null.ValueOrZero (ChatGroupMessageN.QuotaConsumed r))
                      (null.ValueOrZero (ChatGroupMessageN.Pid r))
                      (null.ValueOrZero (ChatGroupMessageN.MemberId r))
                      (null.ValueOrZero (ChatGroupMessageN.Status r)).

(** The column names [AddChatMessage] passes to [ToChatGroupMessageN]. *)
Inductive MessageField : Type :=
  | FieldChatGroupMessageId
  | FieldChatGroupMessageGroupId
  | FieldChatGroupMessageUserId
  | FieldChatGroupMessageMessage
  | FieldChatGroupMessageRole
  | FieldChatGroupMessageTokenConsumed
  | FieldChatGroupMessageQuotaConsumed
  | FieldChatGroupMessagePid
  | FieldChatGroupMessageMemberId
  | FieldChatGroupMessageStatus.

(** The nullable form of a message: each allowed column is set from the
    plain value, the others stay NULL. *)
Definition set_allowed (w : ChatGroupMessage.t) (res : ChatGroupMessageN.t)
    (al : MessageField) : ChatGroupMessageN.t :=
  match al with
  | FieldChatGroupMessageId =>
      ChatGroupMessageN.set_Id (null.IntFrom (ChatGroupMessage.Id w)) res
  | FieldChatGroupMessageGroupId =>
      ChatGroupMessageN.set_GroupId (null.IntFrom (ChatGroupMessage.GroupId w)) res
  | FieldChatGroupMessageUserId =>
      ChatGroupMessageN.set_UserId (null.IntFrom (ChatGroupMessage.UserId w)) res
  | FieldChatGroupMessageMessage =>
      ChatGroupMessageN.set_Message (null.StringFrom (ChatGroupMessage.Message w)) res
  | FieldChatGroupMessageRole =>
      ChatGroupMessageN.set_Role (null.IntFrom (ChatGroupMessage.Role w)) res
  | FieldChatGroupMessageTokenConsumed =>
      ChatGroupMessageN.set_TokenConsumed (null.IntFrom (ChatGroupMessage.TokenConsumed w)) res
  | FieldChatGroupMessageQuotaConsumed =>
      ChatGroupMessageN.set_QuotaConsumed (null.IntFrom (ChatGroupMessage.QuotaConsumed w)) res
  | FieldChatGroupMessagePid =>
      ChatGroupMessageN.set_Pid (null.IntFrom (ChatGroupMessage.Pid w)) res
  | FieldChatGroupMessageMemberId =>
      ChatGroupMessageN.set_MemberId (null.IntFrom (ChatGroupMessage.MemberId w)) res
  | FieldChatGroupMessageStatus =>
      ChatGroupMessageN.set_Status (null.IntFrom (ChatGroupMessage.Status w)) res
  end.

Definition ToChatGroupMessageN (w : ChatGroupMessage.t) (allows : list MessageField)
    : ChatGroupMessageN.t :=
  fold_left (set_allowed w) allows ChatGroupMessageN.empty.

(** Modelled from the spec: [eloquent.Transaction] is missing.  The callback
    runs on a transaction handle; when it returns an error the store is put
    back as it was when the transaction began, otherwise its writes stay.
    [L] is the type of the variables of the caller the callback assigns. *)
Definition Transaction {L} (cb : Handle → St (L * option error)) : St (L * option error) :=
  s0 <- get_store ;;
  call emit EvBegin ;;
  r <- cb HTx ;;
  match r.2 with
  | Some err => call put_store s0 ;; call emit EvRollback ;; ret (r.1, Some err)
  | None => call emit EvCommit ;; ret (r.1, None)
  end.

(** A transaction whose callback assigns no variable of its caller. *)
Definition Transaction_ (cb : Handle → St (option error)) : St (option error) :=
  r <- Transaction (λ tx, err <- cb tx ;; ret (tt, err)) ;;
  ret r.2.

(** ** [array.ToMap] ([go-utils]): a Go map filled in slice order, so that
    of two items with one key the later stays. *)
Fixpoint ToMap_from {T} (i : nat) (input : list T) (keyFunc : T → nat → Z)
    (result : gmap Z T) : gmap Z T :=
  match input with
  | [] => result
  | item :: rest => ToMap_from (S i) rest keyFunc (<[keyFunc item i := item]> result)
  end.

Definition ToMap {T} (input : list T) (keyFunc : T → nat → Z) : gmap Z T :=
  ToMap_from 0 input keyFunc ∅.

(** ** The operations of [ChatGroupRepo] *)

(** The member row [CreateGroup] and [AddMembersToGroup] insert: the [KV]
    names the group, the model and the status, and no [user_id]. *)
Definition created_member (gid : Z) (member : Member) : ChatGroupMemberN.t :=
  ChatGroupMemberN.mk None (Some gid) None
    (Some (ModelID member)) (Some (ModelName member))
    (Some ChatGroupMemberStatusNormal).

(** [for _, member := range members { Create(...) }], leaving at the first
    error. *)
Fixpoint create_members (tx : Handle) (gid : Z) (members : list Member)
    : St (option error) :=
  match members with
  | [] => ret None
  | member :: rest =>
      r <- Create TChatGroupMember tx (created_member gid member) ;;
      match r with
      | Err err => ret (Some (Errorf "create group member failed" err))
      | Ok _ => create_members tx gid rest
      end
  end.

Definition CreateGroup (userID : Z) (name : string) (members : list Member)
    : St (Z * option error) :=
  Transaction (λ tx,
    let groupID := 0 in
    r <- Create TChatGroup tx (ChatGroupN.mk None (Some userID) (Some name)) ;;
    match r with
    | Err err => ret (groupID, Some (Errorf "create group failed" err))
    | Ok gid =>
        let groupID := gid in
        err <- create_members tx gid members ;;
        ret (groupID, err)
    end).

Definition UpdateGroup (groupID userID : Z) (name : string) : St (option error) :=
  Transaction_ (λ tx,
    let q := Where ChatGroupN.UserId userID (Where ChatGroupN.Id groupID Builder) in
    r <- First TChatGroup tx q ;;
    match r with
    | Err ErrNoRows => ret (Some ErrNotFound)
    | Err err => ret (Some (Errorf "query group failed" err))
    | Ok grp =>
        if bool_decide (name ≠ null.StringValueOrZero (ChatGroupN.Name grp)) then
          let grp := ChatGroupN.set_Name (null.StringFrom name) grp in
          e <- Save TChatGroup tx grp ;;
          match e with
          | Some err => ret (Some (Errorf "save group failed" err))
          | None => ret None
          end
        else ret None
    end).

(** First loop of [UpdateGroupMembers], iteration [i]: the current member at
    index [i] is marked deleted when its key is not among the supplied
    ones, and takes the supplied model otherwise. *)
Definition reconcile_current (membersMap : gmap Z Member)
    (currentMembers : list ChatGroupMemberN.t) (i : nat) : list ChatGroupMemberN.t :=
  match currentMembers !! i with
  | None => currentMembers
  | Some member =>
      match membersMap !! null.ValueOrZero (ChatGroupMemberN.Id member) with
      | None =>
          alter (ChatGroupMemberN.set_Status (null.IntFrom ChatGroupMemberStatusDeleted))
                i currentMembers
      | Some modifyMember =>
          let member := ChatGroupMemberN.set_ModelId
                          (null.StringFrom (ModelID modifyMember)) member in
          let member := ChatGroupMemberN.set_ModelName
                          (null.StringFrom (ModelName modifyMember)) member in
          <[i := member]> currentMembers
      end
  end.

(** Second loop, one iteration: a supplied member whose key is not among the
    current ones is appended as a new row. *)
Definition append_new (groupID userID : Z) (currentMembersMap : gmap Z ChatGroupMemberN.t)
    (currentMembers : list ChatGroupMemberN.t) (member : Member)
    : list ChatGroupMemberN.t :=
  match currentMembersMap !! ID member with
  | None =>
      currentMembers ++
        [ChatGroupMemberN.mk None (null.IntFrom groupID) (null.IntFrom userID)
           (null.StringFrom (ModelID member)) (null.StringFrom (ModelName member))
           (null.IntFrom ChatGroupMemberStatusNormal)]
  | Some _ => currentMembers
  end.

(** Third loop: save every row, leaving at the first error. *)
Fixpoint save_members (tx : Handle) (currentMembers : list ChatGroupMemberN.t)
    : St (option error) :=
  match currentMembers with
  | [] => ret None
  | member :: rest =>
      e <- Save TChatGroupMember tx member ;;
      match e with
      | Some err => ret (Some (Errorf "save group member failed" err))
      | None => save_members tx rest
      end
  end.

(** The in-memory part of [UpdateGroupMembers]: the two maps and the first
    two loops. *)
Definition reconcile (groupID userID : Z) (members : list Member)
    (currentMembers : list ChatGroupMemberN.t) : list ChatGroupMemberN.t :=
  let membersMap := ToMap members (λ member _, ID member) in
  let currentMembersMap :=
    ToMap currentMembers (λ member _, null.ValueOrZero (ChatGroupMemberN.Id member)) in
  let currentMembers :=
    fold_left (reconcile_current membersMap)
              (seq 0 (length currentMembers)) currentMembers in
  fold_left (append_new groupID userID currentMembersMap) members currentMembers.

Definition current_members_query (groupID userID : Z) : Query ChatGroupMemberN.t :=
  Where ChatGroupMemberN.UserId userID
    (Where ChatGroupMemberN.Status ChatGroupMemberStatusNormal
       (Where ChatGroupMemberN.GroupId groupID Builder)).

Definition UpdateGroupMembers (groupID userID : Z) (members : list Member)
    : St (option error) :=
  Transaction_ (λ tx,
    let q := current_members_query groupID userID in
    r <- Get TChatGroupMember tx q ;;
    match r with
    | Err err => ret (Some (Errorf "query group members failed" err))
    | Ok currentMembers =>
        save_members tx (reconcile groupID userID members currentMembers)
    end).

Definition AddMembersToGroup (groupID userID : Z) (members : list Member)
    : St (option error) :=
  Transaction_ (λ tx, create_members tx groupID members).

Definition remove_members_query (groupID userID : Z) (memberIDs : list Z)
    : Query ChatGroupMemberN.t :=
  WhereIn ChatGroupMemberN.Id memberIDs
    (Where ChatGroupMemberN.Status ChatGroupMemberStatusNormal
       (Where ChatGroupMemberN.UserId userID
          (Where ChatGroupMemberN.GroupId groupID Builder))).

Definition RemoveMembersFromGroup (groupID userID : Z) (memberIDs : list Z)
    : St (option error) :=
  if bool_decide (length memberIDs = 0%nat) then ret None
  else
    Transaction_ (λ tx,
      let q := remove_members_query groupID userID memberIDs in
      r <- UpdateFields TChatGroupMember tx
             (ChatGroupMemberN.set_Status (Some ChatGroupMemberStatusDeleted)) q ;;
      match r with
      | Err err => ret (Some err)
      | Ok _ => ret None
      end).

Definition group_members_query (groupID : Z) : Query ChatGroupMemberN.t :=
  Where ChatGroupMemberN.Status ChatGroupMemberStatusNormal
    (Where ChatGroupMemberN.GroupId groupID Builder).

Definition GetGroup (groupID userID : Z) : St (Result Group) :=
  r <- First TChatGroup HDb (Where ChatGroupN.UserId userID (Where ChatGroupN.Id groupID Builder)) ;;
  match r with
  | Err ErrNoRows => ret (Err ErrNotFound)
  | Err err => ret (Err (Errorf "query group failed" err))
  | Ok grp =>
      r <- Get TChatGroupMember HDb (group_members_query groupID) ;;
      match r with
      | Err err => ret (Err (Errorf "query group members failed" err))
      | Ok members => ret (Ok (mkGroup (ToChatGroup grp) (map ToChatGroupMember members)))
      end
  end.

Definition Groups (userID limit : Z) : St (Result (list ChatGroup.t)) :=
  r <- Get TChatGroup HDb (Limit limit (OrderByDesc ChatGroupN.Id
                  (Where ChatGroupN.UserId userID Builder))) ;;
  match r with
  | Err err => ret (Err (Errorf "query groups failed" err))
  | Ok groups => ret (Ok (map ToChatGroup groups))
  end.

Definition AddChatMessage (groupID userID : Z) (msg : ChatGroupMessage)
    : St (Z * option error) :=
  Transaction (λ tx,
    let messageID := 0 in
    let chatMsg :=
      ChatGroupMessage.mk 0 groupID userID (Message msg) (Role msg) (TokenConsumed msg)
        (QuotaConsumed msg) (Pid msg) (MemberId msg) (Status msg) in
    r <- ModelSave TChatGroupMessage tx (ToChatGroupMessageN chatMsg
           [FieldChatGroupMessageGroupId; FieldChatGroupMessageUserId;
            FieldChatGroupMessageMessage; FieldChatGroupMessageRole;
            FieldChatGroupMessageTokenConsumed; FieldChatGroupMessageQuotaConsumed;
            FieldChatGroupMessagePid; FieldChatGroupMessageMemberId;
            FieldChatGroupMessageStatus]) ;;
    match r with
    | Err err => ret (messageID, Some (Errorf "save chat message failed" err))
    | Ok msgID => ret (msgID, None)
    end).

Definition message_query (groupID userID messageID : Z) : Query ChatGroupMessageN.t :=
  Where ChatGroupMessageN.Id messageID
    (Where ChatGroupMessageN.UserId userID
       (Where ChatGroupMessageN.GroupId groupID Builder)).

Definition GetChatMessage (groupID userID messageID : Z) : St (Result ChatGroupMessage.t) :=
  r <- First TChatGroupMessage HDb (message_query groupID userID messageID) ;;
  match r with
  | Err ErrNoRows => ret (Err ErrNotFound)
  | Err err => ret (Err (Errorf "query chat message failed" err))
  | Ok msg => ret (Ok (ToChatGroupMessage msg))
  end.

Definition GetChatMessages (groupID limit : Z) : St (Result (list ChatGroupMessage.t)) :=
  r <- Get TChatGroupMessage HDb (Limit limit (OrderByDesc ChatGroupMessageN.Id
                  (Where ChatGroupMessageN.GroupId groupID Builder))) ;;
  match r with
  | Err err => ret (Err (Errorf "query chat messages failed" err))
  | Ok messages => ret (Ok (map ToChatGroupMessage messages))
  end.

Definition DeleteChatMessage (groupID userID messageID : Z) : St (option error) :=
  Transaction_ (λ tx,
    r <- Delete TChatGroupMessage tx (message_query groupID userID messageID) ;;
    match r with
    | Err err => ret (Some err)
    | Ok _ => ret None
    end).

Definition UpdateChatMessage (groupID userID messageID : Z) (msg : ChatGroupMessageUpdate)
    : St (option error) :=
  Transaction_ (λ tx,
    r <- UpdateFields TChatGroupMessage tx
           (λ row,
              ChatGroupMessageN.set_Status (Some (upd_Status msg))
                (ChatGroupMessageN.set_QuotaConsumed (Some (upd_QuotaConsumed msg))
                   (ChatGroupMessageN.set_TokenConsumed (Some (upd_TokenConsumed msg))
                      (ChatGroupMessageN.set_Message (Some (upd_Message msg)) row))))
           (message_query groupID userID messageID) ;;
    match r with
    | Err err => ret (Some err)
    | Ok _ => ret None
    end).

(** ** Running an operation *)

Definition empty_store : Store := mkStore (mkTable [] 1) (mkTable [] 1) (mkTable [] 1).
Definition world0 : World := mkWorld empty_store [] [].

(** The calls a client can make, and the world each leaves. *)
Inductive Call : Type :=
  | CallCreateGroup (userID : Z) (name : string) (members : list Member)
  | CallUpdateGroup (groupID userID : Z) (name : string)
  | CallUpdateGroupMembers (groupID userID : Z) (members : list Member)
  | CallAddMembersToGroup (groupID userID : Z) (members : list Member)
  | CallRemoveMembersFromGroup (groupID userID : Z) (memberIDs : list Z)
  | CallGetGroup (groupID userID : Z)
  | CallGroups (userID limit : Z)
  | CallAddChatMessage (groupID userID : Z) (msg : ChatGroupMessage)
  | CallGetChatMessage (groupID userID messageID : Z)
  | CallGetChatMessages (groupID limit : Z)
  | CallDeleteChatMessage (groupID userID messageID : Z)
  | CallUpdateChatMessage (groupID userID messageID : Z) (msg : ChatGroupMessageUpdate).

Definition exec (c : Call) (w : World) : World :=
  match c with
  | CallCreateGroup userID name members => (CreateGroup userID name members w).2
  | CallUpdateGroup groupID userID name => (UpdateGroup groupID userID name w).2
  | CallUpdateGroupMembers groupID userID members =>
      (UpdateGroupMembers groupID userID members w).2
  | CallAddMembersToGroup groupID userID members =>
      (AddMembersToGroup groupID userID members w).2
  | CallRemoveMembersFromGroup groupID userID memberIDs =>
      (RemoveMembersFromGroup groupID userID memberIDs w).2
  | CallGetGroup groupID userID => (GetGroup groupID userID w).2
  | CallGroups userID limit => (Groups userID limit w).2
  | CallAddChatMessage groupID userID msg => (AddChatMessage groupID userID msg w).2
  | CallGetChatMessage groupID userID messageID =>
      (GetChatMessage groupID userID messageID w).2
  | CallGetChatMessages groupID limit => (GetChatMessages groupID limit w).2
  | CallDeleteChatMessage groupID userID messageID =>
      (DeleteChatMessage groupID userID messageID w).2
  | CallUpdateChatMessage groupID userID messageID msg =>
      (UpdateChatMessage groupID userID messageID msg w).2
  end.

(** The four calls that only read. *)
Definition reads_only (c : Call) : bool :=
  match c with
  | CallGetGroup _ _ | CallGroups _ _ | CallGetChatMessage _ _ _
  | CallGetChatMessages _ _ => true
  | _ => false
  end.

(** ** Vocabulary of the properties *)

(** Whether the next statement is going to fail, and the world after a
    statement has been issued. *)
Definition faulty (w : World) : bool :=
  match faults w with [] => false | b :: _ => b end.

Definition called (h : Handle) (t : TableName) (op : OpName) (w : World) : World :=
  mkWorld (store w) (tail (faults w)) (log w ++ [EvCall h t op]).

Definition with_store (s : Store) (w : World) : World :=
  mkWorld s (faults w) (log w).

(** The events an operation adds to the log. *)
Definition events_of (c : Call) (w : World) : list Event :=
  drop (length (log w)) (log (exec c w)).

Definition is_call_on (h : Handle) (e : Event) : Prop :=
  ∃ t op, e = EvCall h t op.



(** The reconciliation of [UpdateGroupMembers] as its description words it,
    keyed by member ID.  [supplied members id] is the supplied member the
    current member [id] is matched with (the last one, should several carry
    that ID). *)
Definition supplied (members : list Member) (id : Z) : option Member :=
  last (List.filter (λ m, bool_decide (ID m = id)) members).

Definition member_key (c : ChatGroupMemberN.t) : Z :=
  null.ValueOrZero (ChatGroupMemberN.Id c).

(** A current member: deleted when no supplied member has its ID, given the
    supplied model otherwise. *)
Definition reconciled (members : list Member) (c : ChatGroupMemberN.t) : ChatGroupMemberN.t :=
  match supplied members (member_key c) with
  | None => ChatGroupMemberN.set_Status (Some ChatGroupMemberStatusDeleted) c
  | Some m =>
      ChatGroupMemberN.set_ModelName (Some (ModelName m))
        (ChatGroupMemberN.set_ModelId (Some (ModelID m)) c)
  end.

(** A supplied member is new when its ID matches no current member. *)
Definition is_new (current : list ChatGroupMemberN.t) (m : Member) : bool :=
  bool_decide (ID m ∉ map member_key current).

Definition new_member (groupID userID : Z) (m : Member) : ChatGroupMemberN.t :=
  ChatGroupMemberN.mk None (Some groupID) (Some userID)
    (Some (ModelID m)) (Some (ModelName m)) (Some ChatGroupMemberStatusNormal).

Definition reconcile_spec (groupID userID : Z) (members : list Member)
    (current : list ChatGroupMemberN.t) : list ChatGroupMemberN.t :=
  map (reconciled members) current ++
  map (new_member groupID userID) (List.filter (is_new current) members).

(** Rows inserted one after the other take consecutive keys. *)
Fixpoint number_from (t : TableName) (start : Z) (rs : list (Row t)) : list (Row t) :=
  match rs with
  | [] => []
  | r :: rest => with_id t start r :: number_from t (start + 1) rest
  end.

Definition table_extend (t : TableName) (rs : list (Row t)) (x : Table (Row t))
    : Table (Row t) :=
  mkTable (rows x ++ number_from t (next_id x) rs) (next_id x + Z.of_nat (length rs)).

(** A table as the database keeps it: every row has a key, positive and
    below the next auto-increment value, and no two rows share one. *)
Definition wf_table (t : TableName) (x : Table (Row t)) : Prop :=
  NoDup (map (row_id t) (rows x)) ∧
  Forall (λ r, 0 < null.ValueOrZero (row_id t r) < next_id x) (rows x) ∧
  0 < next_id x.

Definition wf_store (s : Store) : Prop :=
  wf_table TChatGroup (chat_group s) ∧
  wf_table TChatGroupMember (chat_group_member s) ∧
  wf_table TChatGroupMessage (chat_group_message s).

#[global] Instance wf_table_dec t x : Decision (wf_table t x).
Proof. unfold wf_table. apply _. Defined.

#[global] Instance wf_store_dec s : Decision (wf_store s).
Proof. unfold wf_store. apply _. Defined.

(** A world reached by two calls, for the examples. *)
Definition example_world : World :=
  (UpdateGroupMembers 1 7 [mkMember 0 "b" "B"; mkMember 0 "c" "C"]
     (CreateGroup 7 "g" [mkMember 0 "a" "A"] world0).2).2.

(** The statement [row.Save] issues, and what it does to the store. *)
Definition save_op (t : TableName) (row : Row t) : OpName :=
  if bool_decide (0 < null.ValueOrZero (row_id t row)) then OpUpdateById else OpSave.

Definition saved (t : TableName) (s : Store) (row : Row t) : Store :=
  if bool_decide (0 < null.ValueOrZero (row_id t row))
  then with_tbl t (table_update_by_id t (null.ValueOrZero (row_id t row)) row (tbl t s)) s
  else with_tbl t (table_insert t row (tbl t s)) s.



(** The statements saving the rows [rs] issues. *)
Definition save_calls (rs : list ChatGroupMemberN.t) : list Event :=
  map (λ r, EvCall HTx TChatGroupMember (save_op TChatGroupMember r)) rs.

(** Whether the database fails one of the next [n] statements. *)
Definition fails_within (n : nat) (fs : list bool) : bool :=
  existsb (λ b, b) (take n fs).

(** The keys of the member rows, in table order. *)
Definition member_ids (s : Store) : list (option Z) :=
  map ChatGroupMemberN.Id (rows (chat_group_member s)).

(** No member row has left the table: the keys of before are still there,
    in place. *)
Definition keeps_member_rows (w w' : World) : Prop :=
  member_ids (store w) `prefix_of` member_ids (store w').

Definition keeps_wf (w w' : World) : Prop :=
  wf_store (store w) → wf_store (store w').

(** The rows [RemoveMembersFromGroup] marks: the Normal members of the group
    and user whose ID is among [memberIDs]. *)
Definition is_removed (groupID userID : Z) (memberIDs : list Z)
    (r : ChatGroupMemberN.t) : bool :=
  bool_decide (ChatGroupMemberN.GroupId r = Some groupID ∧
               ChatGroupMemberN.UserId r = Some userID ∧
               ChatGroupMemberN.Status r = Some ChatGroupMemberStatusNormal ∧
               ChatGroupMemberN.Id r ∈ map Some memberIDs).

(** The rows [GetGroup] lists: the Normal members of the group. *)
Definition is_listed (groupID : Z) (r : ChatGroupMemberN.t) : bool :=
  bool_decide (ChatGroupMemberN.GroupId r = Some groupID ∧
               ChatGroupMemberN.Status r = Some ChatGroupMemberStatusNormal).

Definition mark_deleted : ChatGroupMemberN.t → ChatGroupMemberN.t :=
  ChatGroupMemberN.set_Status (Some ChatGroupMemberStatusDeleted).

(** The row [GetChatMessage] looks for. *)
Definition is_message (groupID userID messageID : Z) (r : ChatGroupMessageN.t) : bool :=
  bool_decide (ChatGroupMessageN.GroupId r = Some groupID ∧
               ChatGroupMessageN.UserId r = Some userID ∧
               ChatGroupMessageN.Id r = Some messageID).

(** The row [AddChatMessage] inserts, before it is given its key. *)
Definition message_row (groupID userID : Z) (msg : ChatGroupMessage) : ChatGroupMessageN.t :=
  ChatGroupMessageN.mk None (Some groupID) (Some userID) (Some (Message msg))
    (Some (Role msg)) (Some (TokenConsumed msg)) (Some (QuotaConsumed msg))
    (Some (Pid msg)) (Some (MemberId msg)) (Some (Status msg)).


(** A computation keeps the relation [R] when [R] holds between the world
    it starts in and the world it leaves. *)
Definition keeps (R : World → World → Prop) {A} (m : St A) : Prop :=
  ∀ w, R w (m w).2.

(** The log has grown by statements on the handle [h] only; by whole
    transactions only. *)
Definition adds_calls_on (h : Handle) (w w' : World) : Prop :=
  ∃ evs, log w' = log w ++ evs ∧ Forall (is_call_on h) evs.


(** The group row [GetGroup] and [UpdateGroup] look for: the one with that
    key, owned by that user. *)
Definition is_group (groupID userID : Z) (r : ChatGroupN.t) : bool :=
  bool_decide (ChatGroupN.Id r = Some groupID ∧ ChatGroupN.UserId r = Some userID).

Definition group_query (groupID userID : Z) : Query ChatGroupN.t :=
  Where ChatGroupN.UserId userID (Where ChatGroupN.Id groupID Builder).



(** The calls that work on the messages of a group. *)
Definition on_messages (c : Call) : bool :=
  match c with
  | CallAddChatMessage _ _ _ | CallGetChatMessage _ _ _ | CallGetChatMessages _ _
  | CallDeleteChatMessage _ _ _ | CallUpdateChatMessage _ _ _ _ => true
  | _ => false
  end.

(** The columns [UpdateChatMessage] assigns, on a row and on its plain form. *)
Definition updated_row (msg : ChatGroupMessageUpdate) (row : ChatGroupMessageN.t)
    : ChatGroupMessageN.t :=
  ChatGroupMessageN.set_Status (Some (upd_Status msg))
    (ChatGroupMessageN.set_QuotaConsumed (Some (upd_QuotaConsumed msg))
       (ChatGroupMessageN.set_TokenConsumed (Some (upd_TokenConsumed msg))
          (ChatGroupMessageN.set_Message (Some (upd_Message msg)) row))).

Definition updated_message (msg : ChatGroupMessageUpdate) (m : ChatGroupMessage.t)
    : ChatGroupMessage.t :=
  ChatGroupMessage.mk (ChatGroupMessage.Id m) (ChatGroupMessage.GroupId m)
    (ChatGroupMessage.UserId m) (upd_Message msg) (ChatGroupMessage.Role m)
    (upd_TokenConsumed msg) (upd_QuotaConsumed msg) (ChatGroupMessage.Pid m)
    (ChatGroupMessage.MemberId m) (upd_Status msg).

(** What may become of a member row: its key, group and user stay, and its
    status stays or goes from Normal to Deleted. *)
Definition member_row_kept (r r' : ChatGroupMemberN.t) : Prop :=
  ChatGroupMemberN.Id r' = ChatGroupMemberN.Id r ∧
  ChatGroupMemberN.GroupId r' = ChatGroupMemberN.GroupId r ∧
  ChatGroupMemberN.UserId r' = ChatGroupMemberN.UserId r ∧
  (ChatGroupMemberN.Status r' = ChatGroupMemberN.Status r ∨
   (ChatGroupMemberN.Status r = Some ChatGroupMemberStatusNormal ∧
    ChatGroupMemberN.Status r' = Some ChatGroupMemberStatusDeleted)).

(** The order of [Groups] and [GetChatMessages]: keys going down. *)
Fixpoint ids_descend {A} (id : A → Z) (l : list A) : Prop :=
  match l with
  | [] => True
  | a :: rest => Forall (λ b, id b ≤ id a) rest ∧ ids_descend id rest
  end.

(** The group row after [UpdateGroup]: renamed when the name differs. *)
Definition renamed (name : string) (r : ChatGroupN.t) : ChatGroupN.t :=
  if bool_decide (name ≠ null.StringValueOrZero (ChatGroupN.Name r))
  then ChatGroupN.set_Name (Some name) r
  else r.

(** * Properties *)

(** ** Running statements and transactions *)

Lemma statement_run {A} h t op (run : Store → Result A * Store) w :
  statement h t op run w =
    if faulty w then (Err ErrDriver, called h t op w)
    else ((run (store w)).1, with_store (run (store w)).2 (called h t op w)).
Proof.
  unfold statement, bind, db_call, faulty, called, with_store, ret, get_store, put_store.
  destruct (faults w) as [|[] fs]; reflexivity.
Qed.

Lemma Transaction_run {L} (cb : Handle → St (L * option error)) w :
  Transaction cb w =
    let r := cb HTx (emit EvBegin w).2 in
    match r.1.2 with
    | Some err => ((r.1.1, Some err), (emit EvRollback (with_store (store w) r.2)).2)
    | None => ((r.1.1, None), (emit EvCommit r.2).2)
    end.
Proof.
  unfold Transaction, bind, get_store, put_store, ret. simpl.
  destruct (cb HTx _) as [[l [e|]] w2]; reflexivity.
Qed.

Lemma Transaction__run (cb : Handle → St (option error)) w :
  Transaction_ cb w =
    let r := cb HTx (emit EvBegin w).2 in
    match r.1 with
    | Some err => (Some err, (emit EvRollback (with_store (store w) r.2)).2)
    | None => (None, (emit EvCommit r.2).2)
    end.
Proof.
  unfold Transaction_. unfold bind at 1. rewrite Transaction_run.
  unfold bind, ret. simpl.
  destruct (cb HTx _) as [[e|] w2]; reflexivity.
Qed.

(** C10: with no member to remove, [RemoveMembersFromGroup] returns [nil]
    at once: no statement is issued, no transaction is begun, and the
    store, the log and the pending failures are those of before. *)
Theorem RemoveMembersFromGroup_empty (groupID userID : Z) (w : World) :
  RemoveMembersFromGroup groupID userID [] w = (None, w).
Proof. reflexivity. Qed.

(** ** What every transactional operation keeps

    [R] relates the worlds before and after the body of a transaction,
    [T] those before and after the whole transaction; [good] says which
    effects on the store a statement may have. *)
Section Preservation.
Variable R T : World → World → Prop.
Variable good : ∀ A, (Store → Result A * Store) → Prop.

Hypothesis R_refl : ∀ w, R w w.
Hypothesis R_trans : ∀ w1 w2 w3, R w1 w2 → R w2 w3 → R w1 w3.
Hypothesis T_refl : ∀ w, T w w.
Hypothesis R_statement :
  ∀ A t op (run : Store → Result A * Store),
    good A run → ∀ w, R w (statement HTx t op run w).2.
Hypothesis T_Transaction :
  ∀ L (cb : Handle → St (L * option error)),
    (∀ w, R w (cb HTx w).2) → ∀ w, T w (Transaction cb w).2.

Hypothesis good_insert : ∀ t kv, good _ (insert_run t kv).
Hypothesis good_select : ∀ t q, good _ (select_run t q).
Hypothesis good_first : ∀ t q, good _ (first_run t q).
Hypothesis good_update_where :
  ∀ t set q, (∀ r, row_id t (set r) = row_id t r) → good _ (update_where_run t set q).
Hypothesis good_update_by_id : ∀ t id row, good _ (update_by_id_run t id row).
Hypothesis good_delete_message : ∀ q, good _ (delete_run TChatGroupMessage q).

Lemma keeps_ret {A} (a : A) : keeps R (ret a).
Proof. intros w. apply R_refl. Qed.

Lemma keeps_bind {A B} (m : St A) (k : A → St B) :
  keeps R m → (∀ a, keeps R (k a)) → keeps R (bind m k).
Proof.
  intros Hm Hk w. unfold bind. specialize (Hm w).
  destruct (m w) as [a w']. eapply R_trans; [exact Hm | apply Hk].
Qed.

Lemma keeps_Create t kv : keeps R (Create t HTx kv).
Proof. intros w. apply R_statement, good_insert. Qed.

Lemma keeps_ModelSave t row : keeps R (ModelSave t HTx row).
Proof. intros w. apply R_statement, good_insert. Qed.

Lemma keeps_Get t q : keeps R (Get t HTx q).
Proof. intros w. apply R_statement, good_select. Qed.

Lemma keeps_First t q : keeps R (First t HTx q).
Proof. intros w. apply R_statement, good_first. Qed.

Lemma keeps_UpdateFields t set q :
  (∀ r, row_id t (set r) = row_id t r) → keeps R (UpdateFields t HTx set q).
Proof. intros Hid w. apply R_statement, good_update_where, Hid. Qed.

Lemma keeps_UpdateById t id row : keeps R (UpdateById t HTx id row).
Proof. intros w. apply R_statement, good_update_by_id. Qed.

Lemma keeps_Delete_message q : keeps R (Delete TChatGroupMessage HTx q).
Proof. intros w. apply R_statement, good_delete_message. Qed.

Lemma keeps_Save t row : keeps R (Save t HTx row).
Proof.
  unfold Save. apply keeps_bind.
  - case_bool_decide; [apply keeps_UpdateById | apply keeps_ModelSave].
  - intros [a|e]; apply keeps_ret.
Qed.

Lemma keeps_create_members gid members : keeps R (create_members HTx gid members).
Proof.
  induction members as [|member rest IH]; [apply keeps_ret|].
  simpl. apply keeps_bind; [apply keeps_Create|].
  intros [a|e]; [exact IH | apply keeps_ret].
Qed.

Lemma keeps_save_members rs : keeps R (save_members HTx rs).
Proof.
  induction rs as [|member rest IH]; [apply keeps_ret|].
  simpl. apply keeps_bind; [apply keeps_Save|].
  intros [e|]; [apply keeps_ret | exact IH].
Qed.

Lemma T_Transaction_ (cb : Handle → St (option error)) :
  keeps R (cb HTx) → ∀ w, T w (Transaction_ cb w).2.
Proof.
  intros Hcb w. unfold Transaction_, bind at 1.
  pose proof (T_Transaction unit (λ tx, bind (cb tx) (λ err, ret (tt, err)))) as HT.
  destruct (Transaction _ w) as [r w'] eqn:E. simpl.
  replace w' with (Transaction (λ tx, bind (cb tx) (λ err, ret (tt, err))) w).2
    by (rewrite E; reflexivity).
  apply HT. apply keeps_bind; [exact Hcb | intros; apply keeps_ret].
Qed.

(** Every call that writes runs as one transaction and so is in [T]. *)
Lemma exec_writes (c : Call) (w : World) : reads_only c = false → T w (exec c w).
Proof.
  destruct c; simpl; try discriminate; intros _.
  - (* CreateGroup *)
    apply T_Transaction. apply keeps_bind; [apply keeps_Create|].
    intros [gid|e]; [|apply keeps_ret].
    apply keeps_bind; [apply keeps_create_members | intros; apply keeps_ret].
  - (* UpdateGroup *)
    apply T_Transaction_. apply keeps_bind; [apply keeps_First|].
    intros [grp|e].
    + case_bool_decide; [|apply keeps_ret].
      apply keeps_bind; [apply keeps_Save | intros [?|]; apply keeps_ret].
    + destruct e; apply keeps_ret.
  - (* UpdateGroupMembers *)
    apply T_Transaction_. apply keeps_bind; [apply keeps_Get|].
    intros [cur|e]; [apply keeps_save_members | apply keeps_ret].
  - (* AddMembersToGroup *)
    apply T_Transaction_, keeps_create_members.
  - (* RemoveMembersFromGroup *)
    unfold RemoveMembersFromGroup. case_bool_decide; [apply T_refl|].
    apply T_Transaction_. apply keeps_bind.
    + apply keeps_UpdateFields. intros r; reflexivity.
    + intros [?|?]; apply keeps_ret.
  - (* AddChatMessage *)
    apply T_Transaction. apply keeps_bind; [apply keeps_ModelSave|].
    intros [?|?]; apply keeps_ret.
  - (* DeleteChatMessage *)
    apply T_Transaction_. apply keeps_bind; [apply keeps_Delete_message|].
    intros [?|?]; apply keeps_ret.
  - (* UpdateChatMessage *)
    apply T_Transaction_. apply keeps_bind.
    + apply keeps_UpdateFields. intros r; reflexivity.
    + intros [?|?]; apply keeps_ret.
Qed.
End Preservation.

(** ** The log of an operation *)

Lemma adds_calls_on_refl h w : adds_calls_on h w w.
Proof. exists []. split; [by rewrite app_nil_r | constructor]. Qed.

Lemma adds_calls_on_trans h w1 w2 w3 :
  adds_calls_on h w1 w2 → adds_calls_on h w2 w3 → adds_calls_on h w1 w3.
Proof.
  intros (e1 & H1 & F1) (e2 & H2 & F2). exists (e1 ++ e2). split.
  - by rewrite H2, H1, app_assoc.
  - by apply Forall_app.
Qed.

Lemma adds_calls_on_statement {A} h t op (run : Store → Result A * Store) w :
  adds_calls_on h w (statement h t op run w).2.
Proof.
  rewrite statement_run. exists [EvCall h t op]. split.
  - by destruct (faulty w).
  - repeat constructor. by exists t, op.
Qed.




Lemma events_of_app c w evs : log (exec c w) = log w ++ evs → events_of c w = evs.
Proof. intros H. unfold events_of. rewrite H. by rewrite drop_app_length. Qed.

(** The four reading operations issue their statements on the plain
    connection, begin no transaction and leave the store alone. *)
Lemma reads_run (c : Call) (w : World) :
  reads_only c = true →
  store (exec c w) = store w ∧
  ∃ t op evs, events_of c w = EvCall HDb t op :: evs ∧ Forall (is_call_on HDb) evs.
Proof.
  assert (Hc : ∀ t op, is_call_on HDb (EvCall HDb t op)) by (intros t op; by exists t, op).
  destruct c; simpl; try discriminate; intros _; unfold events_of; simpl.
  - unfold GetGroup, bind, First, Get. rewrite statement_run.
    destruct (faulty w); simpl.
    { split; [done|]. rewrite drop_app_length. eauto 6. }
    destruct (select _ _) as [|grp ?]; simpl.
    { split; [done|]. rewrite drop_app_length. eauto 6. }
    rewrite statement_run. destruct (faulty _); simpl;
      (split; [done|]); rewrite <- app_assoc, drop_app_length; eauto 8.
  - unfold Groups, bind, Get. rewrite statement_run.
    destruct (faulty w); simpl; (split; [done|]); rewrite drop_app_length; eauto 6.
  - unfold GetChatMessage, bind, First. rewrite statement_run.
    destruct (faulty w); simpl.
    { split; [done|]. rewrite drop_app_length. eauto 6. }
    destruct (select _ _) as [|msg ?]; simpl;
      (split; [done|]); rewrite drop_app_length; eauto 6.
  - unfold GetChatMessages, bind, Get. rewrite statement_run.
    destruct (faulty w); simpl; (split; [done|]); rewrite drop_app_length; eauto 6.
Qed.



(** ** The in-memory reconciliation of [UpdateGroupMembers] *)

Lemma ToMap_from_lookup {T} (key : T → Z) (input : list T) i (result : gmap Z T) k :
  ToMap_from i input (λ x _, key x) result !! k =
    match last (List.filter (λ x, bool_decide (key x = k)) input) with
    | Some x => Some x
    | None => result !! k
    end.
Proof.
  revert i result. induction input as [|item rest IH]; intros i result; [done|].
  cbn [ToMap_from List.filter]. rewrite IH. case_bool_decide as Hk.
  - subst k. rewrite last_cons.
    destruct (last _); [done|]. by rewrite lookup_insert_eq.
  - destruct (last _); [done|]. by rewrite lookup_insert_ne.
Qed.

Lemma ToMap_lookup {T} (key : T → Z) (input : list T) k :
  ToMap input (λ x _, key x) !! k =
    last (List.filter (λ x, bool_decide (key x = k)) input).
Proof.
  unfold ToMap. rewrite ToMap_from_lookup. by destruct (last _).
Qed.

Lemma ToMap_lookup_None {T} (key : T → Z) (input : list T) k :
  ToMap input (λ x _, key x) !! k = None ↔ k ∉ map key input.
Proof.
  rewrite ToMap_lookup, last_None. induction input as [|x l IH]; simpl.
  - split; [intros _; apply not_elem_of_nil | done].
  - rewrite not_elem_of_cons. case_bool_decide; split; try done.
    + intros [? _]. congruence.
    + intros H'. split; [congruence | by apply IH].
    + intros [_ H']. by apply IH.
Qed.

Lemma alter_as_insert {A} (f : A → A) (l : list A) i x :
  l !! i = Some x → alter f i l = <[i := f x]> l.
Proof.
  revert i. induction l as [|y l IH]; intros [|i] Hi; simplify_eq/=; [done|].
  f_equal. by apply IH.
Qed.

(** A loop that rewrites index after index is a [map]. *)
Lemma fold_indices_map {A} (f : A → A) (step : list A → nat → list A) :
  (∀ l i x, l !! i = Some x → step l i = <[i := f x]> l) →
  ∀ pre post,
    fold_left step (seq (length pre) (length post)) (pre ++ post) = pre ++ map f post.
Proof.
  intros Hstep pre post. revert pre.
  induction post as [|x post IH]; intros pre; [done|].
  simpl. rewrite (Hstep _ _ x); [|by apply list_lookup_middle].
  rewrite insert_app_r_alt by lia. rewrite Nat.sub_diag. simpl.
  specialize (IH (pre ++ [f x])).
  rewrite length_app in IH. simpl in IH. rewrite Nat.add_1_r in IH.
  rewrite <- app_assoc in IH. simpl in IH. rewrite IH. by rewrite <- app_assoc.
Qed.

Lemma reconcile_current_step members (l : list ChatGroupMemberN.t) i c :
  l !! i = Some c →
  reconcile_current (ToMap members (λ member _, ID member)) l i
    = <[i := reconciled members c]> l.
Proof.
  intros Hi. unfold reconcile_current, reconciled, supplied, member_key.
  rewrite Hi, ToMap_lookup.
  destruct (last _) as [m|]; [done|]. by apply alter_as_insert.
Qed.

Lemma append_new_fold groupID userID (cm : gmap Z ChatGroupMemberN.t) members cur :
  fold_left (append_new groupID userID cm) members cur =
    cur ++ map (new_member groupID userID)
               (List.filter (λ m, bool_decide (cm !! ID m = None)) members).
Proof.
  revert cur. induction members as [|m members IH]; intros cur; simpl.
  - by rewrite app_nil_r.
  - rewrite IH. unfold append_new. case_bool_decide as E.
    + rewrite E. by rewrite <- app_assoc.
    + destruct (cm !! ID m); [done | congruence].
Qed.

(** The two loops compute the three-way reconciliation. *)
Lemma reconcile_refines groupID userID members current :
  reconcile groupID userID members current = reconcile_spec groupID userID members current.
Proof.
  unfold reconcile, reconcile_spec.
  pose proof (fold_indices_map (reconciled members) _
                (reconcile_current_step members) [] current) as Hloop.
  simpl in Hloop. rewrite Hloop, append_new_fold. do 2 f_equal.
  apply List.filter_ext. intros m. unfold is_new.
  apply bool_decide_ext. apply (ToMap_lookup_None member_key).
Qed.

(** ** Saving rows *)

Lemma Save_run t h row w :
  Save t h row w =
    if faulty w then (Some ErrDriver, called h t (save_op t row) w)
    else (None, with_store (saved t (store w) row) (called h t (save_op t row) w)).
Proof.
  unfold Save, save_op, saved, bind, UpdateById, ModelSave.
  case_bool_decide; rewrite statement_run; by destruct (faulty w).
Qed.


Lemma create_members_ok gid members w w' :
  create_members HTx gid members w = (None, w') →
  store w' = with_tbl TChatGroupMember
               (table_extend TChatGroupMember (map (created_member gid) members)
                  (chat_group_member (store w))) (store w).
Proof.
  revert w. induction members as [|m members IH]; intros w H; simpl in *.
  - unfold ret in H. simplify_eq. unfold table_extend. simpl.
    rewrite app_nil_r, Z.add_0_r. by destruct (store w') as [? [] ?].
  - unfold bind, Create in H. rewrite statement_run in H.
    destruct (faulty w); [done|]. simpl in H.
    rewrite (IH _ H). simpl. unfold table_extend. simpl.
    rewrite <- app_assoc. simpl. do 2 f_equal. lia.
Qed.

Lemma with_id_same t i (r : Row t) : row_id t r = Some i → with_id t i r = r.
Proof. destruct t, r; simpl; by intros ->. Qed.

Lemma row_id_with_id t i (r : Row t) : row_id t (with_id t i r) = Some i.
Proof. by destruct t. Qed.



Section Updates.
Context (t : TableName) (f : Row t → Row t).
Hypothesis f_id : ∀ r, row_id t (f r) = row_id t r.

Lemma saved_keyed s c i :
  row_id t c = Some i → 0 < i →
  saved t s (f c) =
    with_tbl t (mkTable (map (λ r, if bool_decide (row_id t r = Some i) then f c else r)
                             (rows (tbl t s))) (next_id (tbl t s))) s.
Proof.
  intros Hc Hi. unfold saved. rewrite f_id, Hc. simpl.
  rewrite bool_decide_true by done. unfold table_update_by_id.
  rewrite with_id_same; [done|]. by rewrite f_id.
Qed.

End Updates.


Lemma NoDup_map_inj {A B} (g : A → B) (l : list A) x y :
  NoDup (map g l) → x ∈ l → y ∈ l → g x = g y → x = y.
Proof.
  induction l as [|a l IH]; simpl; intros Hnd Hx Hy Hg.
  - by apply elem_of_nil in Hx.
  - apply NoDup_cons in Hnd as [Ha Hnd].
    apply elem_of_cons in Hx as [->|Hx]; apply elem_of_cons in Hy as [->|Hy];
      try done; try by apply IH.
    + exfalso. apply Ha. rewrite Hg. apply list_elem_of_fmap. by exists y.
    + exfalso. apply Ha. rewrite <- Hg. apply list_elem_of_fmap. by exists x.
Qed.



Lemma NoDup_map_filter {A B} (g : A → B) (p : A → bool) (l : list A) :
  NoDup (map g l) → NoDup (map g (List.filter p l)).
Proof.
  induction l as [|a l IH]; simpl; [done|]. intros [Ha Hnd]%NoDup_cons.
  destruct (p a); simpl; [|by apply IH]. apply NoDup_cons. split; [|by apply IH].
  intros Hin. apply Ha. apply list_elem_of_fmap in Hin as (x & -> & Hx).
  apply list_elem_of_In, filter_In in Hx as [Hx _].
  apply list_elem_of_fmap. exists x. split; [done | by apply list_elem_of_In].
Qed.




Lemma save_calls_on_tx rs : Forall (is_call_on HTx) (save_calls rs).
Proof. apply Forall_forall. intros e (r & -> & _)%list_elem_of_fmap. by eexists _, _. Qed.






(** ** [CreateGroup] *)

Lemma create_members_calls gid members w :
  adds_calls_on HTx w (create_members HTx gid members w).2.
Proof.
  apply (keeps_create_members (adds_calls_on HTx) (λ _ _, True)); try done.
  - apply adds_calls_on_refl.
  - apply adds_calls_on_trans.
  - intros A t op run _ w0. apply adds_calls_on_statement.
Qed.

(** The loop of creations returns an error exactly when the database fails
    one of its statements. *)
Lemma create_members_result gid members w :
  (create_members HTx gid members w).1 = None ↔
  fails_within (length members) (faults w) = false.
Proof.
  revert w. induction members as [|m members IH]; intros w; [done|].
  simpl. unfold bind, Create. rewrite statement_run. unfold faulty, fails_within.
  destruct (faults w) as [|[] fs] eqn:Hf; simpl.
  - rewrite IH. simpl. rewrite Hf. unfold fails_within. simpl. by rewrite take_nil.
  - done.
  - rewrite IH. simpl. by rewrite Hf.
Qed.

Lemma create_members_error gid members w e :
  (create_members HTx gid members w).1 = Some e →
  e = Errorf "create group member failed" ErrDriver.
Proof.
  revert w. induction members as [|m members IH]; intros w; [done|].
  simpl. unfold bind, Create. rewrite statement_run.
  destruct (faulty w); simpl; [by intros [= <-] | apply IH].
Qed.

(** C4: a call of [CreateGroup] that succeeds has added one group row, owned
    by [userID] and named [name], under a fresh key, and for each element
    of [members], in order, one member row carrying that key as its group,
    the element's ModelID and ModelName and status Normal; the key of the
    group is what the call returns. *)
Theorem CreateGroup_creates (userID : Z) (name : string) (members : list Member)
    (w w' : World) (groupID : Z) :
  CreateGroup userID name members w = ((groupID, None), w') →
  groupID = next_id (chat_group (store w)) ∧
  rows (chat_group (store w')) =
    rows (chat_group (store w)) ++ [ChatGroupN.mk (Some groupID) (Some userID) (Some name)] ∧
  rows (chat_group_member (store w')) =
    rows (chat_group_member (store w)) ++
    number_from TChatGroupMember (next_id (chat_group_member (store w)))
      (map (λ member, ChatGroupMemberN.mk None (Some groupID) None
                        (Some (ModelID member)) (Some (ModelName member))
                        (Some ChatGroupMemberStatusNormal)) members) ∧
  chat_group_message (store w') = chat_group_message (store w).
Proof.
  intros H. unfold CreateGroup in H. rewrite Transaction_run in H. cbv zeta in H.
  unfold bind, Create in H. rewrite statement_run in H.
  destruct (faulty _); [done|]. cbn [fst snd insert_run] in H.
  destruct (create_members HTx _ _ _) as [[e|] w3] eqn:E; [done|].
  cbn [fst snd ret] in H. injection H as <- <-.
  apply create_members_ok in E. simpl in *. rewrite E. by simpl.
Qed.

Lemma CreateGroup_creates_witness :
  ∃ w', CreateGroup 7 "g" [mkMember 0 "a" "A"; mkMember 0 "b" "B"] world0 = ((1, None), w') ∧
        rows (chat_group (store w')) = [ChatGroupN.mk (Some 1) (Some 7) (Some "g")] ∧
        rows (chat_group_member (store w')) =
          [ChatGroupMemberN.mk (Some 1) (Some 1) None (Some "a") (Some "A") (Some 1);
           ChatGroupMemberN.mk (Some 2) (Some 1) None (Some "b") (Some "B") (Some 1)].
Proof.
  eexists. split; [reflexivity|].
  destruct (CreateGroup_creates 7 "g" [mkMember 0 "a" "A"; mkMember 0 "b" "B"]
              world0 _ 1 eq_refl) as (_ & Hg & Hm & _).
  split; [rewrite Hg | rewrite Hm]; reflexivity.
Defined.

(** With no failure pending, [CreateGroup] succeeds. *)
Lemma CreateGroup_total userID name members w :
  faults w = [] → (CreateGroup userID name members w).1.2 = None.
Proof.
  intros Hf. unfold CreateGroup. rewrite Transaction_run. cbv zeta.
  unfold bind, Create. rewrite statement_run. unfold faulty. simpl. rewrite Hf.
  cbn [fst snd]. destruct (create_members HTx _ _ _) as [e w3] eqn:E.
  assert (He : e = None).
  { change e with (e, w3).1. rewrite <- E. apply create_members_result.
    simpl. unfold fails_within. by rewrite take_nil. }
  subst e. reflexivity.
Qed.

(** C3: when the database fails the creation of the group row or of one of
    the member rows, [CreateGroup] returns the error, the one transaction it
    runs ends in a rollback, and the store is as it was before the call: no
    group row and no member row stays. *)
Theorem CreateGroup_atomic (userID : Z) (name : string) (members : list Member)
    (w : World) :
  fails_within (S (length members)) (faults w) = true →
  ∃ groupID err w',
    CreateGroup userID name members w = ((groupID, Some err), w') ∧
    (err = Errorf "create group failed" ErrDriver ∨
     err = Errorf "create group member failed" ErrDriver) ∧
    store w' = store w ∧
    ∃ evs, log w' = log w ++ EvBegin :: evs ++ [EvRollback] ∧
           Forall (is_call_on HTx) evs.
Proof.
  intros Hfail. unfold CreateGroup. rewrite Transaction_run. cbv zeta.
  unfold bind, Create. rewrite statement_run.
  unfold fails_within in Hfail. unfold faulty. simpl faults.
  destruct (faults w) as [|[] fs] eqn:Hf; [done| |].
  - cbn [fst snd ret]. eexists _, _, _. split; [reflexivity|].
    split; [by left|]. split; [done|].
    exists [EvCall HTx TChatGroup OpCreate]. simpl. split.
    + by rewrite <- !app_assoc.
    + repeat constructor. by eexists _, _.
  - cbn [fst snd insert_run].
    match goal with |- context [create_members HTx ?g members ?w0] =>
      pose proof (create_members_calls g members w0) as (evs & Hlog & Hcalls);
      pose proof (create_members_result g members w0) as Hres;
      pose proof (create_members_error g members w0) as Herr;
      destruct (create_members HTx g members w0) as [[e|] w3] eqn:E
    end.
    + cbn [fst snd ret]. eexists _, _, _. split; [reflexivity|].
      split; [right; by apply Herr|]. split; [done|].
      exists (EvCall HTx TChatGroup OpCreate :: evs). simpl in *. split.
      * rewrite Hlog. by rewrite <- !app_assoc.
      * constructor; [by eexists _, _ | done].
    + exfalso. simpl in Hres, Hfail. rewrite Hf in Hres. simpl in Hres.
      destruct Hres as [Hres _]. specialize (Hres eq_refl).
      unfold fails_within in Hres. congruence.
Qed.

Lemma CreateGroup_atomic_witness :
  ∃ groupID err w',
    CreateGroup 7 "g" [mkMember 0 "a" "A"; mkMember 0 "b" "B"]
      (mkWorld (store example_world) [false; false; true] []) = ((groupID, Some err), w') ∧
    store w' = store example_world.
Proof.
  destruct (CreateGroup_atomic 7 "g" [mkMember 0 "a" "A"; mkMember 0 "b" "B"]
              (mkWorld (store example_world) [false; false; true] []) eq_refl)
    as (groupID & err & w' & Hrun & _ & Hstore & _).
  by exists groupID, err, w'.
Defined.

(** ** Well-formed stores

    The store starts well-formed and every operation keeps it so. *)

Lemma wf_empty_store : wf_store empty_store.
Proof. repeat split; simpl; try constructor; lia. Qed.

Section WfTable.
Context (t : TableName).

Lemma wf_table_map (g : Row t → Row t) x :
  (∀ r, row_id t (g r) = row_id t r) →
  wf_table t x → wf_table t (mkTable (map g (rows x)) (next_id x)).
Proof.
  intros Hg (Hnd & Hids & Hnext). repeat split; simpl; [| |done].
  - rewrite map_map. by rewrite (map_ext _ (row_id t)).
  - apply Forall_forall. intros r' (r & -> & Hr)%list_elem_of_fmap.
    rewrite Hg. rewrite Forall_forall in Hids. by apply Hids.
Qed.

Lemma wf_table_insert kv x : wf_table t x → wf_table t (table_insert t kv x).
Proof.
  intros (Hnd & Hids & Hnext). unfold table_insert. repeat split; simpl; [| |lia].
  - rewrite map_app. simpl. rewrite row_id_with_id.
    apply NoDup_app. split; [done|]. split; [|apply NoDup_singleton].
    intros i (r & -> & Hr)%list_elem_of_fmap Hin%list_elem_of_singleton.
    rewrite Forall_forall in Hids. apply Hids in Hr. rewrite Hin in Hr. simpl in Hr. lia.
  - apply Forall_app. split.
    + eapply Forall_impl; [exact Hids|]. simpl. intros r Hr. lia.
    + constructor; [|constructor]. rewrite row_id_with_id. simpl. lia.
Qed.

Lemma wf_table_update_by_id id row x :
  wf_table t x → wf_table t (table_update_by_id t id row x).
Proof.
  apply wf_table_map. intros r. case_bool_decide as Hr; [|done].
  by rewrite row_id_with_id.
Qed.

Lemma wf_table_update_where q set x :
  (∀ r, row_id t (set r) = row_id t r) →
  wf_table t x → wf_table t (table_update_where t q set x).
Proof. intros Hset. apply wf_table_map. intros r. by destruct (matches q r). Qed.

Lemma wf_table_delete_where q x :
  wf_table t x → wf_table t (table_delete_where t q x).
Proof.
  intros (Hnd & Hids & Hnext). repeat split; simpl; [| |done].
  - by apply NoDup_map_filter.
  - apply Forall_forall. intros r Hr%list_elem_of_In%filter_In.
    rewrite Forall_forall in Hids. apply Hids. apply list_elem_of_In. tauto.
Qed.

Lemma wf_store_tbl s : wf_store s → wf_table t (tbl t s).
Proof. unfold wf_store. destruct t; simpl; tauto. Qed.

Lemma wf_store_with_tbl x s : wf_store s → wf_table t x → wf_store (with_tbl t x s).
Proof. unfold wf_store. destruct t; simpl; tauto. Qed.
End WfTable.

Lemma keeps_wf_Transaction {L} (cb : Handle → St (L * option error)) :
  (∀ w, keeps_wf w (cb HTx w).2) → ∀ w, keeps_wf w (Transaction cb w).2.
Proof.
  intros Hcb w Hwf. rewrite Transaction_run. cbv zeta.
  specialize (Hcb (emit EvBegin w).2 Hwf).
  destruct (cb HTx _) as [[l [e|]] w2]; simpl in *; done.
Qed.

Lemma exec_keeps_wf (c : Call) (w : World) :
  wf_store (store w) → wf_store (store (exec c w)).
Proof.
  destruct (reads_only c) eqn:Hr.
  { destruct (reads_run c w Hr) as [-> _]. done. }
  revert Hr. change (reads_only c = false → keeps_wf w (exec c w)).
  apply (exec_writes keeps_wf keeps_wf (λ A run, ∀ s, wf_store s → wf_store (run s).2)).
  - intros w0 Hw. exact Hw.
  - intros w1 w2 w3 H12 H23 H1. apply H23, H12, H1.
  - intros w0 Hw. exact Hw.
  - intros A t op run Hrun w0 Hwf. rewrite statement_run.
    destruct (faulty w0); simpl; [done | by apply Hrun].
  - intros L cb. apply keeps_wf_Transaction.
  - intros t kv s Hs. apply wf_store_with_tbl; [done|].
    by apply wf_table_insert, wf_store_tbl.
  - by intros t q s Hs.
  - by intros t q s Hs.
  - intros t set q Hset s Hs. apply wf_store_with_tbl; [done|].
    by apply wf_table_update_where, wf_store_tbl.
  - intros t id row s Hs. apply wf_store_with_tbl; [done|].
    by apply wf_table_update_by_id, wf_store_tbl.
  - intros q s Hs. apply (wf_store_with_tbl TChatGroupMessage); [done|].
    by apply wf_table_delete_where, (wf_store_tbl TChatGroupMessage).
Qed.

(** Every world a client can reach from the empty store is well-formed,
    whatever the database fails on the way. *)
Lemma reachable_wf (cs : list Call) (fs : list bool) :
  wf_store (store (fold_left (λ w c, exec c w) cs (mkWorld empty_store fs []))).
Proof.
  assert (H : ∀ w, wf_store (store w) →
                   wf_store (store (fold_left (λ w c, exec c w) cs w))).
  { induction cs as [|c cs IH]; intros w Hw; [done|]. simpl. by apply IH, exec_keeps_wf. }
  apply H, wf_empty_store.
Qed.

(** ** Member rows are never removed *)

Lemma keeps_member_rows_Transaction {L} (cb : Handle → St (L * option error)) :
  (∀ w, keeps_member_rows w (cb HTx w).2) →
  ∀ w, keeps_member_rows w (Transaction cb w).2.
Proof.
  intros Hcb w. rewrite Transaction_run. cbv zeta.
  specialize (Hcb (emit EvBegin w).2). unfold keeps_member_rows in *.
  destruct (cb HTx _) as [[l [e|]] w2]; simpl in *; done.
Qed.

Lemma member_ids_map (g : ChatGroupMemberN.t → ChatGroupMemberN.t) rs x a b :
  (∀ r, ChatGroupMemberN.Id (g r) = ChatGroupMemberN.Id r) →
  member_ids (mkStore a (mkTable (map g rs) x) b) = map ChatGroupMemberN.Id rs.
Proof. intros Hg. unfold member_ids. simpl. rewrite map_map. by apply map_ext. Qed.

Lemma exec_keeps_member_rows (c : Call) (w : World) : keeps_member_rows w (exec c w).
Proof.
  destruct (reads_only c) eqn:Hr.
  { unfold keeps_member_rows. by destruct (reads_run c w Hr) as [-> _]. }
  revert Hr.
  apply (exec_writes keeps_member_rows keeps_member_rows
           (λ A run, ∀ s, member_ids s `prefix_of` member_ids (run s).2)).
  - intros w0. by unfold keeps_member_rows.
  - intros w1 w2 w3 H12 H23. unfold keeps_member_rows in *. by etrans.
  - intros w0. by unfold keeps_member_rows.
  - intros A t op run Hrun w0. rewrite statement_run. unfold keeps_member_rows.
    destruct (faulty w0); simpl; [done | by apply Hrun].
  - intros L cb. apply keeps_member_rows_Transaction.
  - intros t kv s. destruct t; simpl; try done.
    unfold member_ids. simpl. rewrite map_app. by apply prefix_app_r.
  - by intros t q s.
  - by intros t q s.
  - intros t set q Hset s. destruct t; simpl; try done.
    unfold table_update_where. rewrite member_ids_map; [done|].
    intros r. destruct (matches q r); [apply Hset | done].
  - intros t id row s. destruct t; simpl; try done.
    unfold table_update_by_id. rewrite member_ids_map; [done|].
    intros r. by case_bool_decide.
  - by intros q s.
Qed.

(** ** [RemoveMembersFromGroup] and [GetGroup] *)

Lemma matches_remove_members_query groupID userID memberIDs r :
  matches (remove_members_query groupID userID memberIDs) r
    = is_removed groupID userID memberIDs r.
Proof.
  unfold is_removed, matches, remove_members_query, col_eq. simpl. unfold col_eq, col_in.
  assert (Hin : ∀ i, i ∈ memberIDs ↔ Some i ∈ map Some memberIDs).
  { intros i. rewrite list_elem_of_fmap. split; [by exists i|].
    by intros (j & [= ->] & Hj). }
  assert (Hnone : None ∉ map Some memberIDs).
  { by intros (j & Hj & _)%list_elem_of_fmap. }
  apply eq_bool_prop_intro.
  destruct r as [[i|] [g|] [u|] mi mn [st|]]; simpl;
    rewrite ?andb_True, ?bool_decide_spec, ?Hin; unfold Is_true;
    intuition congruence.
Qed.

Lemma matches_group_members_query groupID r :
  matches (group_members_query groupID) r = is_listed groupID r.
Proof.
  unfold is_listed, matches, group_members_query, col_eq. simpl. unfold col_eq.
  apply eq_bool_prop_intro.
  destruct r as [i [g|] u mi mn [st|]]; simpl;
    rewrite ?andb_True, ?bool_decide_spec; unfold Is_true;
    intuition congruence.
Qed.

Lemma is_removed_nil groupID userID r : is_removed groupID userID [] r = false.
Proof.
  unfold is_removed. apply bool_decide_eq_false. intros (_ & _ & _ & H).
  by apply elem_of_nil in H.
Qed.

(** What a call of [RemoveMembersFromGroup] leaves: on success the selected
    rows are marked deleted, on failure nothing has changed. *)
Lemma RemoveMembersFromGroup_run groupID userID memberIDs w :
  let r := RemoveMembersFromGroup groupID userID memberIDs w in
  store r.2 =
    match r.1 with
    | None =>
        with_tbl TChatGroupMember
          (mkTable (map (λ r, if is_removed groupID userID memberIDs r
                              then mark_deleted r else r)
                      (rows (chat_group_member (store w))))
                   (next_id (chat_group_member (store w)))) (store w)
    | Some _ => store w
    end.
Proof.
  cbv zeta. unfold RemoveMembersFromGroup. case_bool_decide as Hlen.
  - simpl. destruct memberIDs; [|done].
    rewrite (map_ext _ id), map_id; [by destruct (store w) as [? [] ?]|].
    intros r. by rewrite is_removed_nil.
  - rewrite Transaction__run. cbv zeta. unfold bind, UpdateFields.
    rewrite statement_run. destruct (faulty _); simpl; [done|].
    unfold table_update_where. simpl. do 2 f_equal.
    apply map_ext. intros r. by rewrite matches_remove_members_query.
Qed.

Lemma GetGroup_ok groupID userID w grp w' :
  GetGroup groupID userID w = (Ok grp, w') →
  store w' = store w ∧
  Group_Members grp =
    map ToChatGroupMember
      (List.filter (is_listed groupID) (rows (chat_group_member (store w)))).
Proof.
  unfold GetGroup, bind, First, Get. rewrite statement_run.
  destruct (faulty w); [done|]. unfold first_run. cbn [fst snd].
  destruct (select _ _) as [|row ?]; [done|].
  rewrite statement_run. destruct (faulty _); [done|].
  unfold select_run, ret. cbn [fst snd]. intros [= <- <-]. split; [done|].
  simpl. f_equal. unfold select. simpl. apply List.filter_ext. intros r.
  apply matches_group_members_query.
Qed.

Lemma supplied_None members k : supplied members k = None ↔ k ∉ map ID members.
Proof.
  unfold supplied. rewrite last_None. induction members as [|m l IH]; simpl.
  - split; [intros _; apply not_elem_of_nil | done].
  - rewrite not_elem_of_cons. case_bool_decide; split; try done.
    + intros [? _]. congruence.
    + intros H'. split; [congruence | by apply IH].
    + intros [_ H']. by apply IH.
Qed.

Lemma reconcile_lookup_current groupID userID members current i c :
  current !! i = Some c →
  reconcile groupID userID members current !! i = Some (reconciled members c).
Proof.
  intros Hi. rewrite reconcile_refines. unfold reconcile_spec.
  rewrite lookup_app_l.
  - change (map (reconciled members) current) with (reconciled members <$> current).
    by rewrite list_lookup_fmap, Hi.
  - rewrite length_map. by eapply lookup_lt_Some.
Qed.

(** C9: members are only ever soft-deleted.  No operation takes a member
    row out of the table: across every call the keys of the member rows
    stay, in place.  [RemoveMembersFromGroup] either changes nothing or
    sets the status of the rows it selects to Deleted (2); the delete branch
    of [UpdateGroupMembers] turns a current member whose ID is not supplied
    into the same row with status Deleted; and [GetGroup] lists exactly the
    rows of the group whose status is Normal (1). *)
Theorem members_only_soft_deleted :
  (∀ c w, member_ids (store w) `prefix_of` member_ids (store (exec c w))) ∧
  (∀ groupID userID memberIDs w,
     let r := RemoveMembersFromGroup groupID userID memberIDs w in
     rows (chat_group_member (store r.2)) =
       match r.1 with
       | None => map (λ row, if is_removed groupID userID memberIDs row
                             then ChatGroupMemberN.set_Status
                                    (Some ChatGroupMemberStatusDeleted) row
                             else row)
                   (rows (chat_group_member (store w)))
       | Some _ => rows (chat_group_member (store w))
       end) ∧
  (∀ groupID userID members current i c,
     current !! i = Some c → member_key c ∉ map ID members →
     reconcile groupID userID members current !! i =
       Some (ChatGroupMemberN.set_Status (Some ChatGroupMemberStatusDeleted) c)) ∧
  (∀ groupID userID w grp w',
     GetGroup groupID userID w = (Ok grp, w') →
     Group_Members grp =
       map ToChatGroupMember
         (List.filter
            (λ row, bool_decide
               (ChatGroupMemberN.GroupId row = Some groupID ∧
                ChatGroupMemberN.Status row = Some ChatGroupMemberStatusNormal))
            (rows (chat_group_member (store w))))).
Proof.
  split; [exact exec_keeps_member_rows|]. split; [|split].
  - intros groupID userID memberIDs w. cbv zeta.
    pose proof (RemoveMembersFromGroup_run groupID userID memberIDs w) as H.
    cbv zeta in H. rewrite H. by destruct (RemoveMembersFromGroup _ _ _ _).1.
  - intros groupID userID members current i c Hi Hk.
    rewrite (reconcile_lookup_current _ _ _ _ _ c Hi). unfold reconciled.
    by rewrite (proj2 (supplied_None members (member_key c)) Hk).
  - intros groupID userID w grp w' H. by apply GetGroup_ok in H as [_ ->].
Qed.

Lemma members_only_soft_deleted_witness :
  reconcile 1 7 [mkMember 3 "d" "D"]
    [ChatGroupMemberN.mk (Some 2) (Some 1) (Some 7) (Some "b") (Some "B") (Some 1)] !! 0%nat
  = Some (ChatGroupMemberN.mk (Some 2) (Some 1) (Some 7) (Some "b") (Some "B") (Some 2)) ∧
  ∃ grp w', GetGroup 1 7 example_world = (Ok grp, w') ∧
            map ChatGroupMember.Id (Group_Members grp) = [1; 2; 3].
Proof.
  destruct members_only_soft_deleted as (_ & _ & Hdel & Hget). split.
  - apply (Hdel 1 7 [mkMember 3 "d" "D"] _ 0%nat
             (ChatGroupMemberN.mk (Some 2) (Some 1) (Some 7) (Some "b") (Some "B") (Some 1)));
      [reflexivity|].
    apply (bool_decide_unpack _). vm_compute. exact I.
  - eexists _, _. split; [reflexivity|].
    rewrite (Hget 1 7 example_world _ _ eq_refl). reflexivity.
Defined.

(** ** Members created without [user_id] *)






Lemma filter_none {A} (p : A → bool) (l : list A) :
  Forall (λ x, p x = false) l → List.filter p l = [].
Proof. induction 1 as [|x l Hx _ IH]; simpl; [done|]. by rewrite Hx. Qed.



(** ** Removal seen through [GetGroup] *)

Lemma ValueOrZero_positive (x : option Z) i :
  0 < null.ValueOrZero x → null.ValueOrZero x = i → x = Some i.
Proof. destruct x; simpl; [congruence | lia]. Qed.

(** C6: after a successful [RemoveMembersFromGroup], the member list a
    following [GetGroup] of the group returns holds none of the members of
    that group and user that had status Normal and an ID among [memberIDs];
    the rows whose ID is not among [memberIDs] are as they were. *)
Theorem RemoveMembersFromGroup_effective (groupID userID : Z) (memberIDs : list Z)
    (w w1 w2 : World) (grp : Group) :
  wf_store (store w) →
  RemoveMembersFromGroup groupID userID memberIDs w = (None, w1) →
  GetGroup groupID userID w1 = (Ok grp, w2) →
  (∀ k r i,
     rows (chat_group_member (store w)) !! k = Some r →
     ChatGroupMemberN.Id r = Some i → i ∈ memberIDs →
     ChatGroupMemberN.GroupId r = Some groupID →
     ChatGroupMemberN.UserId r = Some userID →
     ChatGroupMemberN.Status r = Some ChatGroupMemberStatusNormal →
     i ∉ map ChatGroupMember.Id (Group_Members grp)) ∧
  (∀ k r,
     rows (chat_group_member (store w)) !! k = Some r →
     ChatGroupMemberN.Id r ∉ map Some memberIDs →
     rows (chat_group_member (store w1)) !! k = Some r).
Proof.
  intros Hwf Hrm Hget.
  pose proof (RemoveMembersFromGroup_run groupID userID memberIDs w) as Hrun.
  cbv zeta in Hrun. rewrite Hrm in Hrun. simpl in Hrun.
  apply GetGroup_ok in Hget as [_ Hmembers]. rewrite Hrun in Hmembers. simpl in Hmembers.
  destruct Hwf as (_ & (Hnd & Hids & _) & _). split.
  - intros k r i Hr%list_elem_of_lookup_2 Hi Hin Hg Hu Hst Hlisted.
    rewrite Hmembers in Hlisted.
    apply list_elem_of_fmap in Hlisted as (m & Hm & Hmin).
    apply list_elem_of_fmap in Hmin as (r1 & -> & Hr1).
    apply list_elem_of_In, filter_In in Hr1 as [Hr1 Hl].
    apply list_elem_of_In, list_elem_of_fmap in Hr1 as (r0 & -> & Hr0).
    assert (Hsame : ChatGroupMemberN.Id
              (if is_removed groupID userID memberIDs r0 then mark_deleted r0 else r0)
              = ChatGroupMemberN.Id r0) by (by destruct (is_removed _ _ _ r0)).
    simpl in Hm. rewrite Hsame in Hm.
    rewrite Forall_forall in Hids. pose proof (Hids r0 Hr0) as [Hpos _]. simpl in Hpos.
    symmetry in Hm. apply (ValueOrZero_positive _ _ Hpos) in Hm.
    assert (r0 = r) as ->.
    { apply (NoDup_map_inj ChatGroupMemberN.Id _ _ _ Hnd Hr0 Hr). congruence. }
    assert (Hrem : is_removed groupID userID memberIDs r = true).
    { apply bool_decide_eq_true. repeat split; try done.
      rewrite Hi. apply list_elem_of_fmap. by exists i. }
    rewrite Hrem in Hl. apply bool_decide_eq_true in Hl as [_ Hl]. simpl in Hl.
    discriminate.
  - intros k r Hk Hnot. rewrite Hrun. simpl.
    match goal with |- map ?g ?l !! k = _ => change (map g l) with (g <$> l) end.
    rewrite list_lookup_fmap, Hk. simpl.
    assert (Hrem : is_removed groupID userID memberIDs r = false).
    { apply bool_decide_eq_false. intros (_ & _ & _ & H). done. }
    by rewrite Hrem.
Qed.

Lemma RemoveMembersFromGroup_effective_witness :
  wf_store (store example_world) ∧
  ∃ w1 grp w2,
    RemoveMembersFromGroup 1 7 [2] example_world = (None, w1) ∧
    GetGroup 1 7 w1 = (Ok grp, w2) ∧
    (2 ∉ map ChatGroupMember.Id (Group_Members grp)) ∧
    map ChatGroupMember.Id (Group_Members grp) = [1; 3].
Proof.
  assert (Hwf : wf_store (store example_world)).
  { apply (bool_decide_unpack _). vm_compute. exact I. }
  split; [exact Hwf|]. eexists _, _, _.
  split; [reflexivity|]. split; [reflexivity|]. split; [|reflexivity].
  destruct (RemoveMembersFromGroup_effective 1 7 [2] example_world _ _ _
              Hwf eq_refl eq_refl) as [Hgone _].
  apply (Hgone 1%nat
           (ChatGroupMemberN.mk (Some 2) (Some 1) (Some 7) (Some "b") (Some "B") (Some 1)));
    try reflexivity.
  apply (bool_decide_unpack _). vm_compute. exact I.
Defined.

(** ** Chat messages *)

Lemma matches_message_query groupID userID messageID r :
  matches (message_query groupID userID messageID) r
    = is_message groupID userID messageID r.
Proof.
  unfold is_message, matches, message_query, col_eq. simpl. unfold col_eq.
  apply eq_bool_prop_intro.
  destruct r as [[i|] [g|] [u|] ? ? ? ? ? ? ?]; simpl;
    rewrite ?andb_True, ?bool_decide_spec; unfold Is_true;
    intuition congruence.
Qed.

Lemma AddChatMessage_success groupID userID msg w messageID w1 :
  AddChatMessage groupID userID msg w = ((messageID, None), w1) →
  messageID = next_id (chat_group_message (store w)) ∧
  faults w1 = tail (faults w) ∧
  store w1 = with_tbl TChatGroupMessage
               (table_insert TChatGroupMessage (message_row groupID userID msg)
                  (chat_group_message (store w))) (store w).
Proof.
  unfold AddChatMessage. rewrite Transaction_run. cbv zeta.
  unfold bind, ModelSave. rewrite statement_run.
  destruct (faulty _); [done|]. cbn [fst snd insert_run ret].
  by intros [= <- <-].
Qed.

(** An old row of a well-formed table is not found under the next key. *)
Lemma fresh_key_not_found groupID userID (x : Table ChatGroupMessageN.t) :
  wf_table TChatGroupMessage x →
  List.filter (is_message groupID userID (next_id x)) (rows x) = [].
Proof.
  intros (_ & Hids & _). apply filter_none.
  eapply Forall_impl; [exact Hids|]. simpl. intros r Hr.
  apply bool_decide_eq_false. intros (_ & _ & Hid). rewrite Hid in Hr. simpl in Hr. lia.
Qed.

(** C5: a message stored by a successful [AddChatMessage] is the one
    [GetChatMessage] finds under the returned key, with the group, the
    user and every field of the argument: Message, Role, TokenConsumed,
    QuotaConsumed, Pid, MemberId and Status.  (When the database fails the
    query itself, [GetChatMessage] returns that failure.) *)
Theorem chat_message_round_trip (groupID userID : Z) (msg : ChatGroupMessage)
    (w w1 : World) (messageID : Z) :
  wf_store (store w) →
  AddChatMessage groupID userID msg w = ((messageID, None), w1) →
  (GetChatMessage groupID userID messageID w1).1 =
    if faulty w1 then Err (Errorf "query chat message failed" ErrDriver)
    else Ok (ChatGroupMessage.mk messageID groupID userID (Message msg) (Role msg)
               (TokenConsumed msg) (QuotaConsumed msg) (Pid msg) (MemberId msg)
               (Status msg)).
Proof.
  intros (_ & _ & Hwf) Hadd.
  apply AddChatMessage_success in Hadd as (-> & _ & Hstore).
  unfold GetChatMessage, bind, First. rewrite statement_run.
  destruct (faulty w1); [done|]. unfold first_run. cbn [fst snd].
  match goal with |- context [@select ?R ?q ?l] =>
    assert (Hsel : @select R q l
                   = [with_id TChatGroupMessage (next_id (chat_group_message (store w)))
                        (message_row groupID userID msg)])
  end.
  { rewrite Hstore. unfold select. simpl.
    rewrite (List.filter_ext _ (is_message groupID userID
                                  (next_id (chat_group_message (store w)))))
      by apply matches_message_query.
    rewrite List.filter_app, fresh_key_not_found by done. simpl.
    unfold is_message. simpl. by rewrite bool_decide_true. }
  rewrite Hsel. reflexivity.
Qed.

Lemma chat_message_round_trip_witness :
  wf_store (store example_world) ∧
  ∃ w1, AddChatMessage 1 7 (mkChatGroupMessage "hi" 1 20 3 0 2 1) example_world
          = ((1, None), w1) ∧
        (GetChatMessage 1 7 1 w1).1 = Ok (ChatGroupMessage.mk 1 1 7 "hi" 1 20 3 0 2 1).
Proof.
  assert (Hwf : wf_store (store example_world)).
  { apply (bool_decide_unpack _). vm_compute. exact I. }
  split; [exact Hwf|]. eexists. split; [reflexivity|].
  exact (chat_message_round_trip 1 7 (mkChatGroupMessage "hi" 1 20 3 0 2 1)
           example_world _ 1 Hwf eq_refl).
Defined.

(** ** Cost of [UpdateGroupMembers] *)








(** * Further properties of the operations *)

(** ** Queries without order and limit *)

Lemma select_plain {R} (q : Query R) (l : list R) :
  q_order_desc q = None → q_limit q = None → select q l = List.filter (matches q) l.
Proof. intros Ho Hl. unfold select. by rewrite Ho, Hl. Qed.

Lemma filter_nil_iff {A} (p : A → bool) (l : list A) :
  List.filter p l = [] ↔ Forall (λ x, p x = false) l.
Proof.
  induction l as [|x l IH]; simpl.
  - split; [constructor | done].
  - destruct (p x) eqn:E; split.
    + done.
    + intros H. apply Forall_cons in H as [H _]. congruence.
    + intros H. constructor; [done | by apply IH].
    + intros H. apply Forall_cons in H as [_ H]. by apply IH.
Qed.

Lemma filter_head_In {A} (p : A → bool) (l : list A) x rest :
  List.filter p l = x :: rest → x ∈ l ∧ p x = true.
Proof.
  intros H. assert (Hin : In x (List.filter p l)) by (rewrite H; by left).
  apply filter_In in Hin as [Hin Hp]. split; [by apply list_elem_of_In | done].
Qed.

Lemma matches_group_query groupID userID r :
  matches (group_query groupID userID) r = is_group groupID userID r.
Proof.
  unfold is_group, matches, group_query, col_eq. simpl. unfold col_eq.
  apply eq_bool_prop_intro.
  destruct r as [[i|] [u|] n]; simpl;
    rewrite ?andb_True, ?bool_decide_spec; unfold Is_true;
    intuition congruence.
Qed.

(** Rewrite the selection of an unordered, unlimited query into a filter. *)
Ltac select_to_filter lem :=
  match goal with
  | |- context [@select ?R ?q ?l] =>
      rewrite (select_plain (R:=R) q l eq_refl eq_refl);
      rewrite (List.filter_ext (@matches R q) _ lem l)
  end.

(** ** [GetGroup] and [GetChatMessage]: what they return *)

Lemma GetGroup_result groupID userID w :
  (GetGroup groupID userID w).1 =
    if faulty w then Err (Errorf "query group failed" ErrDriver)
    else match List.filter (is_group groupID userID) (rows (chat_group (store w))) with
         | [] => Err ErrNotFound
         | grp :: _ =>
             if faulty (called HDb TChatGroup OpFirst w)
             then Err (Errorf "query group members failed" ErrDriver)
             else Ok (mkGroup (ToChatGroup grp)
                        (map ToChatGroupMember
                           (List.filter (is_listed groupID)
                              (rows (chat_group_member (store w))))))
         end.
Proof.
  unfold GetGroup, bind, First, Get. rewrite statement_run.
  destruct (faulty w); [done|]. unfold first_run. cbn [fst snd].
  change (Where ChatGroupN.UserId userID (Where ChatGroupN.Id groupID Builder))
    with (group_query groupID userID).
  select_to_filter (matches_group_query groupID userID).
  simpl. destruct (List.filter _ _) as [|grp rest]; [done|].
  rewrite statement_run. simpl.
  destruct (faulty _); [done|]. unfold select_run, ret. simpl.
  do 3 f_equal. unfold select. simpl. apply List.filter_ext. intros r.
  apply matches_group_members_query.
Qed.

Lemma GetChatMessage_result groupID userID messageID w :
  (GetChatMessage groupID userID messageID w).1 =
    if faulty w then Err (Errorf "query chat message failed" ErrDriver)
    else match List.filter (is_message groupID userID messageID)
                 (rows (chat_group_message (store w))) with
         | [] => Err ErrNotFound
         | r :: _ => Ok (ToChatGroupMessage r)
         end.
Proof.
  unfold GetChatMessage, bind, First. rewrite statement_run.
  destruct (faulty w); [done|]. unfold first_run. cbn [fst snd].
  select_to_filter (matches_message_query groupID userID messageID).
  simpl. by destruct (List.filter _ _).
Qed.

(** X1: [GetGroup] answers [ErrNotFound] exactly when the database answers
    the query and no group has that key and that owner; a group it does
    return has that key and owner, and every member listed with it belongs
    to the group and has status Normal. *)
Theorem GetGroup_owner_only (groupID userID : Z) (w : World) :
  ((GetGroup groupID userID w).1 = Err ErrNotFound ↔
   faulty w = false ∧
   Forall (λ r, ¬ (ChatGroupN.Id r = Some groupID ∧ ChatGroupN.UserId r = Some userID))
     (rows (chat_group (store w)))) ∧
  (∀ grp, (GetGroup groupID userID w).1 = Ok grp →
     ChatGroup.Id (Group_Group grp) = groupID ∧
     ChatGroup.UserId (Group_Group grp) = userID ∧
     Forall (λ m, ChatGroupMember.GroupId m = groupID ∧
                  ChatGroupMember.Status m = ChatGroupMemberStatusNormal)
       (Group_Members grp)).
Proof.
  rewrite GetGroup_result. split.
  - destruct (faulty w); [split; [done | by intros [? _]]|].
    destruct (List.filter _ _) as [|grp rest] eqn:E.
    + split; [intros _ | done]. split; [done|].
      apply filter_nil_iff in E. eapply Forall_impl; [exact E|]. simpl.
      intros r Hr. by apply bool_decide_eq_false in Hr.
    + split; [by destruct (faulty _)|]. intros [_ Hall]. exfalso.
      apply filter_head_In in E as [Hin Hgrp]. apply bool_decide_eq_true in Hgrp.
      rewrite Forall_forall in Hall. by apply (Hall grp).
  - intros grp. destruct (faulty w); [done|].
    destruct (List.filter _ _) as [|row rest] eqn:E; [done|].
    destruct (faulty _); [done|]. intros [= <-]. simpl.
    apply filter_head_In in E as [_ Hrow]. apply bool_decide_eq_true in Hrow as [Hid Hu].
    rewrite Hid, Hu. repeat split.
    apply Forall_forall. intros m (r & -> & Hr)%list_elem_of_fmap.
    apply list_elem_of_In, filter_In in Hr as [_ Hr].
    apply bool_decide_eq_true in Hr as [Hg Hs]. simpl. by rewrite Hg, Hs.
Qed.

Lemma GetGroup_owner_only_witness :
  (GetGroup 1 8 example_world).1 = Err ErrNotFound ∧
  ∃ grp, (GetGroup 1 7 example_world).1 = Ok grp ∧
         ChatGroup.UserId (Group_Group grp) = 7.
Proof.
  split.
  - apply (proj1 (GetGroup_owner_only 1 8 example_world)). split; [reflexivity|].
    vm_compute. repeat constructor. intros [_ H]. discriminate.
  - eexists. split; [reflexivity|].
    by destruct (proj2 (GetGroup_owner_only 1 7 example_world) _ eq_refl) as (_ & -> & _).
Defined.

(** X2: [GetChatMessage] answers [ErrNotFound] exactly when the database
    answers the query and no message has that key in that group for that
    user; a message it does return is a stored one with that key, group and
    user, so no message is handed to another user or group. *)
Theorem GetChatMessage_owner_only (groupID userID messageID : Z) (w : World) :
  ((GetChatMessage groupID userID messageID w).1 = Err ErrNotFound ↔
   faulty w = false ∧
   Forall (λ r, ¬ (ChatGroupMessageN.GroupId r = Some groupID ∧
                   ChatGroupMessageN.UserId r = Some userID ∧
                   ChatGroupMessageN.Id r = Some messageID))
     (rows (chat_group_message (store w)))) ∧
  (∀ m, (GetChatMessage groupID userID messageID w).1 = Ok m →
     ChatGroupMessage.Id m = messageID ∧
     ChatGroupMessage.GroupId m = groupID ∧
     ChatGroupMessage.UserId m = userID ∧
     ∃ r, r ∈ rows (chat_group_message (store w)) ∧ m = ToChatGroupMessage r).
Proof.
  rewrite GetChatMessage_result. split.
  - destruct (faulty w); [split; [done | by intros [? _]]|].
    destruct (List.filter _ _) as [|row rest] eqn:E.
    + split; [intros _ | done]. split; [done|].
      apply filter_nil_iff in E. eapply Forall_impl; [exact E|]. simpl.
      intros r Hr. by apply bool_decide_eq_false in Hr.
    + split; [done|]. intros [_ Hall]. exfalso.
      apply filter_head_In in E as [Hin Hrow]. apply bool_decide_eq_true in Hrow.
      rewrite Forall_forall in Hall. by apply (Hall row).
  - intros m. destruct (faulty w); [done|].
    destruct (List.filter _ _) as [|row rest] eqn:E; [done|].
    intros [= <-]. apply filter_head_In in E as [Hin Hrow].
    apply bool_decide_eq_true in Hrow as (Hg & Hu & Hid). simpl.
    rewrite Hg, Hu, Hid. repeat split. by exists row.
Qed.

Lemma GetChatMessage_owner_only_witness :
  let w := (AddChatMessage 1 7 (mkChatGroupMessage "hi" 1 20 3 0 2 1) example_world).2 in
  (GetChatMessage 1 7 2 w).1 = Err ErrNotFound ∧
  ∃ m, (GetChatMessage 1 7 1 w).1 = Ok m ∧ ChatGroupMessage.UserId m = 7.
Proof.
  intros w. split.
  - apply (proj1 (GetChatMessage_owner_only 1 7 2 w)). split; [reflexivity|].
    vm_compute. repeat constructor. intros (_ & _ & H). discriminate.
  - eexists. split; [reflexivity|].
    by destruct (proj2 (GetChatMessage_owner_only 1 7 1 w) _ eq_refl) as (_ & _ & -> & _).
Defined.

(** X3: a message one user has added to a group is not found by
    [GetChatMessage] under another user or another group, even with the
    right key. *)
Theorem chat_message_private (groupID userID groupID' userID' : Z)
    (msg : ChatGroupMessage) (w w1 : World) (messageID : Z) :
  wf_store (store w) →
  AddChatMessage groupID userID msg w = ((messageID, None), w1) →
  (groupID', userID') ≠ (groupID, userID) →
  faulty w1 = false →
  (GetChatMessage groupID' userID' messageID w1).1 = Err ErrNotFound.
Proof.
  intros (_ & _ & Hwf) Hadd Hother Hok.
  apply AddChatMessage_success in Hadd as (-> & _ & Hstore).
  rewrite GetChatMessage_result, Hok, Hstore. simpl.
  rewrite List.filter_app, fresh_key_not_found by done. simpl.
  unfold is_message. simpl. rewrite bool_decide_false; [done|].
  intros ([= ->] & [= ->] & _). done.
Qed.

Lemma chat_message_private_witness :
  wf_store (store example_world) ∧
  ∃ w1, AddChatMessage 1 7 (mkChatGroupMessage "hi" 1 20 3 0 2 1) example_world
          = ((1, None), w1) ∧
        (GetChatMessage 1 8 1 w1).1 = Err ErrNotFound.
Proof.
  assert (Hwf : wf_store (store example_world)).
  { apply (bool_decide_unpack _). vm_compute. exact I. }
  split; [exact Hwf|]. eexists. split; [reflexivity|].
  apply (chat_message_private 1 7 1 8 (mkChatGroupMessage "hi" 1 20 3 0 2 1)
           example_world _ 1 Hwf eq_refl); [|reflexivity].
  intros H. discriminate.
Defined.

(** ** [DeleteChatMessage] and [UpdateChatMessage] *)

Lemma DeleteChatMessage_run groupID userID messageID w :
  let r := DeleteChatMessage groupID userID messageID w in
  r.1 = (if faulty w then Some ErrDriver else None) ∧
  faults r.2 = tail (faults w) ∧
  store r.2 =
    if faulty w then store w
    else with_tbl TChatGroupMessage
           (mkTable (List.filter (λ row, negb (is_message groupID userID messageID row))
                       (rows (chat_group_message (store w))))
                    (next_id (chat_group_message (store w)))) (store w).
Proof.
  cbv zeta. unfold DeleteChatMessage. rewrite Transaction__run. cbv zeta.
  unfold bind, Delete. rewrite statement_run.
  change (faulty (emit EvBegin w).2) with (faulty w).
  destruct (faulty w); simpl; [done|]. repeat split.
  unfold table_delete_where. simpl. do 2 f_equal.
  apply List.filter_ext. intros r. by rewrite matches_message_query.
Qed.

Lemma UpdateChatMessage_run groupID userID messageID msg w :
  let r := UpdateChatMessage groupID userID messageID msg w in
  r.1 = (if faulty w then Some ErrDriver else None) ∧
  faults r.2 = tail (faults w) ∧
  store r.2 =
    if faulty w then store w
    else with_tbl TChatGroupMessage
           (mkTable (map (λ row, if is_message groupID userID messageID row
                                 then updated_row msg row else row)
                       (rows (chat_group_message (store w))))
                    (next_id (chat_group_message (store w)))) (store w).
Proof.
  cbv zeta. unfold UpdateChatMessage. rewrite Transaction__run. cbv zeta.
  unfold bind, UpdateFields. rewrite statement_run.
  change (faulty (emit EvBegin w).2) with (faulty w).
  destruct (faulty w); simpl; [done|]. repeat split.
  unfold table_update_where. simpl. do 2 f_equal.
  apply map_ext. intros r. by rewrite matches_message_query.
Qed.

Lemma is_message_updated_row g u i msg r :
  is_message g u i (updated_row msg r) = is_message g u i r.
Proof. by destruct r. Qed.

Lemma filter_map_selected {A} (p : A → bool) (f : A → A) (l : list A) :
  (∀ x, p (f x) = p x) →
  List.filter p (map (λ x, if p x then f x else x) l) = map f (List.filter p l).
Proof.
  intros Hp. induction l as [|x l IH]; simpl; [done|].
  destruct (p x) eqn:E; simpl.
  - by rewrite Hp, E, IH.
  - by rewrite E.
Qed.

Lemma filter_map_other {A} (p p' : A → bool) (f : A → A) (l : list A) :
  (∀ x, p x = true → p' x = false) → (∀ x, p' (f x) = p' x) →
  List.filter p' (map (λ x, if p x then f x else x) l) = List.filter p' l.
Proof.
  intros Hdis Hp'. induction l as [|x l IH]; simpl; [done|].
  destruct (p x) eqn:E; simpl.
  - by rewrite Hp', (Hdis x E), IH.
  - by rewrite IH.
Qed.

Lemma filter_filter_other {A} (p p' : A → bool) (l : list A) :
  (∀ x, p x = true → p' x = false) →
  List.filter p' (List.filter (λ x, negb (p x)) l) = List.filter p' l.
Proof.
  intros Hdis. induction l as [|x l IH]; simpl; [done|].
  destruct (p x) eqn:E; simpl.
  - by rewrite (Hdis x E), IH.
  - by rewrite IH.
Qed.

Lemma filter_filter_same {A} (p : A → bool) (l : list A) :
  List.filter p (List.filter (λ x, negb (p x)) l) = [].
Proof.
  induction l as [|x l IH]; simpl; [done|].
  destruct (p x) eqn:E; simpl; [done|]. by rewrite E.
Qed.

Lemma filter_keeps_all {A} (p : A → bool) (l : list A) :
  Forall (λ x, p x = false) l → List.filter (λ x, negb (p x)) l = l.
Proof. induction 1 as [|x l Hx _ IH]; simpl; [done|]. by rewrite Hx, IH. Qed.

Lemma is_message_other g u i g' u' i' r :
  (g', u', i') ≠ (g, u, i) → is_message g u i r = true → is_message g' u' i' r = false.
Proof.
  intros Hne (Hg & Hu & Hi)%bool_decide_eq_true. apply bool_decide_eq_false.
  intros (Hg' & Hu' & Hi'). apply Hne. congruence.
Qed.

(** X4: after a successful [DeleteChatMessage] the message is gone, a
    following [GetChatMessage] of it answers [ErrNotFound], and every other
    message is found as before. *)
Theorem DeleteChatMessage_removes (groupID userID messageID : Z) (w w1 : World) :
  DeleteChatMessage groupID userID messageID w = (None, w1) →
  rows (chat_group_message (store w1)) =
    List.filter (λ row, negb (is_message groupID userID messageID row))
      (rows (chat_group_message (store w))) ∧
  (faulty w1 = false →
   (GetChatMessage groupID userID messageID w1).1 = Err ErrNotFound ∧
   ∀ groupID' userID' messageID',
     (groupID', userID', messageID') ≠ (groupID, userID, messageID) →
     (GetChatMessage groupID' userID' messageID' w1).1 =
     (GetChatMessage groupID' userID' messageID' w).1).
Proof.
  intros Hdel.
  destruct (DeleteChatMessage_run groupID userID messageID w) as (Herr & _ & Hstore).
  rewrite Hdel in Herr, Hstore. simpl in Herr, Hstore.
  destruct (faulty w) eqn:Hw; [done|]. rewrite Hstore. simpl. split; [done|].
  intros Hok. split.
  - rewrite GetChatMessage_result, Hok, Hstore. simpl. by rewrite filter_filter_same.
  - intros g' u' i' Hne. rewrite !GetChatMessage_result, Hok, Hw, Hstore. simpl.
    rewrite filter_filter_other; [done|]. intros r. by apply is_message_other.
Qed.

Lemma DeleteChatMessage_removes_witness :
  let w := (AddChatMessage 1 7 (mkChatGroupMessage "hi" 1 20 3 0 2 1) example_world).2 in
  ∃ w1, DeleteChatMessage 1 7 1 w = (None, w1) ∧
        (GetChatMessage 1 7 1 w).1 = Ok (ChatGroupMessage.mk 1 1 7 "hi" 1 20 3 0 2 1) ∧
        (GetChatMessage 1 7 1 w1).1 = Err ErrNotFound.
Proof.
  intros w. eexists. split; [reflexivity|]. split; [reflexivity|].
  destruct (DeleteChatMessage_removes 1 7 1 w _ eq_refl) as [_ H].
  by destruct (H eq_refl) as [-> _].
Defined.

(** X5: after a successful [UpdateChatMessage], [GetChatMessage] returns the
    message it returned before with Message, TokenConsumed, QuotaConsumed and
    Status replaced by those of the update (zero values included) and with
    its key, group, user, Role, Pid and MemberId as they were; every other
    message is returned as before. *)
Theorem UpdateChatMessage_then_get (groupID userID messageID : Z)
    (msg : ChatGroupMessageUpdate) (w w1 : World) :
  UpdateChatMessage groupID userID messageID msg w = (None, w1) →
  faulty w1 = false →
  (GetChatMessage groupID userID messageID w1).1 =
    match (GetChatMessage groupID userID messageID w).1 with
    | Ok m => Ok (updated_message msg m)
    | Err e => Err e
    end ∧
  ∀ groupID' userID' messageID',
    (groupID', userID', messageID') ≠ (groupID, userID, messageID) →
    (GetChatMessage groupID' userID' messageID' w1).1 =
    (GetChatMessage groupID' userID' messageID' w).1.
Proof.
  intros Hupd Hok.
  destruct (UpdateChatMessage_run groupID userID messageID msg w) as (Herr & _ & Hstore).
  rewrite Hupd in Herr, Hstore. simpl in Herr, Hstore.
  destruct (faulty w) eqn:Hw; [done|]. split.
  - rewrite !GetChatMessage_result, Hok, Hw, Hstore. simpl.
    rewrite filter_map_selected by apply is_message_updated_row.
    by destruct (List.filter _ _) as [|[] rest].
  - intros g' u' i' Hne. rewrite !GetChatMessage_result, Hok, Hw, Hstore. simpl.
    rewrite filter_map_other; [done | |].
    + intros r. by apply is_message_other.
    + intros r. apply is_message_updated_row.
Qed.

Lemma UpdateChatMessage_then_get_witness :
  let w := (AddChatMessage 1 7 (mkChatGroupMessage "hi" 1 20 3 0 2 1) example_world).2 in
  ∃ w1, UpdateChatMessage 1 7 1 (mkChatGroupMessageUpdate "" 5 0 2) w = (None, w1) ∧
        (GetChatMessage 1 7 1 w1).1 = Ok (ChatGroupMessage.mk 1 1 7 "" 1 5 0 0 2 2).
Proof.
  intros w. eexists. split; [reflexivity|].
  destruct (UpdateChatMessage_then_get 1 7 1 (mkChatGroupMessageUpdate "" 5 0 2) w _
              eq_refl eq_refl) as [-> _].
  reflexivity.
Defined.

(** X6: [DeleteChatMessage] and [UpdateChatMessage] never report a missing
    message: the only error they return is the database's, and when no
    message has that key in that group for that user they return [nil] and
    leave the store as it is. *)
Theorem missing_message_is_silent (groupID userID messageID : Z)
    (msg : ChatGroupMessageUpdate) (w : World) :
  (DeleteChatMessage groupID userID messageID w).1
    = (if faulty w then Some ErrDriver else None) ∧
  (UpdateChatMessage groupID userID messageID msg w).1
    = (if faulty w then Some ErrDriver else None) ∧
  (List.filter (is_message groupID userID messageID)
     (rows (chat_group_message (store w))) = [] →
   store (DeleteChatMessage groupID userID messageID w).2 = store w ∧
   store (UpdateChatMessage groupID userID messageID msg w).2 = store w).
Proof.
  destruct (DeleteChatMessage_run groupID userID messageID w) as (Hd & _ & Hds).
  destruct (UpdateChatMessage_run groupID userID messageID msg w) as (Hu & _ & Hus).
  split; [done|]. split; [done|]. intros Hnone. apply filter_nil_iff in Hnone.
  rewrite Hds, Hus. destruct (faulty w); [done|]. split.
  - rewrite filter_keeps_all by done. by destruct (store w) as [? ? []].
  - rewrite (map_ext_in _ id), map_id; [by destruct (store w) as [? ? []]|].
    intros r Hr%list_elem_of_In. rewrite Forall_forall in Hnone.
    by rewrite (Hnone r Hr).
Qed.

Lemma missing_message_is_silent_witness :
  (DeleteChatMessage 1 7 5 example_world).1 = None ∧
  store (DeleteChatMessage 1 7 5 example_world).2 = store example_world ∧
  store (UpdateChatMessage 1 7 5 (mkChatGroupMessageUpdate "x" 1 1 1) example_world).2
    = store example_world.
Proof.
  destruct (missing_message_is_silent 1 7 5 (mkChatGroupMessageUpdate "x" 1 1 1)
              example_world) as (Hd & _ & Hs).
  split; [exact Hd|]. exact (Hs eq_refl).
Defined.

(** ** [UpdateGroup] *)

Lemma UpdateGroup_run groupID userID name w :
  let r := UpdateGroup groupID userID name w in
  if faulty w
  then r.1 = Some (Errorf "query group failed" ErrDriver) ∧ store r.2 = store w
  else match List.filter (is_group groupID userID) (rows (chat_group (store w))) with
       | [] => r.1 = Some ErrNotFound ∧ store r.2 = store w
       | grp :: _ =>
           if bool_decide (name ≠ null.StringValueOrZero (ChatGroupN.Name grp))
           then if faulty (called HTx TChatGroup OpFirst w)
                then r.1 = Some (Errorf "save group failed" ErrDriver) ∧
                     store r.2 = store w
                else r.1 = None ∧
                     store r.2 = saved TChatGroup (store w)
                                   (ChatGroupN.set_Name (Some name) grp)
           else r.1 = None ∧ store r.2 = store w ∧
                log r.2 = log w ++ [EvBegin; EvCall HTx TChatGroup OpFirst; EvCommit]
       end.
Proof.
  cbv zeta. unfold UpdateGroup. rewrite Transaction__run. cbv zeta.
  unfold bind, First. rewrite statement_run.
  change (faulty (emit EvBegin w).2) with (faulty w).
  destruct (faulty w); [done|]. unfold first_run. cbn [fst snd].
  change (Where ChatGroupN.UserId userID (Where ChatGroupN.Id groupID Builder))
    with (group_query groupID userID).
  select_to_filter (matches_group_query groupID userID).
  change (rows (tbl TChatGroup (store (emit EvBegin w).2)))
    with (rows (chat_group (store w))).
  destruct (List.filter _ _) as [|grp rest]; [done|].
  case_bool_decide as Hname.
  - rewrite Save_run.
    change (faulty (with_store _ _)) with (faulty (called HTx TChatGroup OpFirst w)).
    destruct (faulty (called HTx TChatGroup OpFirst w)); simpl; done.
  - simpl. repeat split. by rewrite <- !app_assoc.
Qed.

Lemma fails_within_two fs :
  fails_within 2 fs = false →
  match fs with [] => false | b :: _ => b end = false ∧
  match tail fs with [] => false | b :: _ => b end = false.
Proof.
  unfold fails_within. destruct fs as [|[] [|[] fs]]; simpl; try done.
Qed.

Lemma is_group_renamed g u name r : is_group g u (renamed name r) = is_group g u r.
Proof. unfold renamed. by case_bool_decide. Qed.

Lemma renamed_name name r :
  null.StringValueOrZero (ChatGroupN.Name (renamed name r)) = name.
Proof.
  unfold renamed. case_bool_decide as H; [done|].
  destruct (decide (name = null.StringValueOrZero (ChatGroupN.Name r))); [done|].
  by exfalso.
Qed.

(** X7: [UpdateGroup] answers [ErrNotFound] exactly when the database
    answers the query and no group has that key and that owner, so a user
    cannot rename the group of another; the store is then as it was. *)
Theorem UpdateGroup_not_found (groupID userID : Z) (name : string) (w : World) :
  ((UpdateGroup groupID userID name w).1 = Some ErrNotFound ↔
   faulty w = false ∧
   Forall (λ r, ¬ (ChatGroupN.Id r = Some groupID ∧ ChatGroupN.UserId r = Some userID))
     (rows (chat_group (store w)))) ∧
  ((UpdateGroup groupID userID name w).1 = Some ErrNotFound →
   store (UpdateGroup groupID userID name w).2 = store w).
Proof.
  pose proof (UpdateGroup_run groupID userID name w) as H. cbv zeta in H.
  destruct (faulty w).
  { destruct H as [-> Hs]. split; [split; [done | by intros [? _]] | done]. }
  destruct (List.filter _ _) as [|grp rest] eqn:E.
  - destruct H as [-> Hs]. split; [|done]. split; [intros _ | done]. split; [done|].
    apply filter_nil_iff in E. eapply Forall_impl; [exact E|]. simpl.
    intros r Hr. by apply bool_decide_eq_false in Hr.
  - assert (Hnot : (UpdateGroup groupID userID name w).1 ≠ Some ErrNotFound).
    { case_bool_decide; [destruct (faulty _)|]; destruct H as [-> _]; done. }
    split; [|done]. split; [done|]. intros [_ Hall]. exfalso.
    apply filter_head_In in E as [Hin Hgrp]. apply bool_decide_eq_true in Hgrp.
    rewrite Forall_forall in Hall. by apply (Hall grp).
Qed.

Lemma UpdateGroup_not_found_witness :
  (UpdateGroup 1 8 "h" example_world).1 = Some ErrNotFound ∧
  store (UpdateGroup 1 8 "h" example_world).2 = store example_world.
Proof.
  destruct (UpdateGroup_not_found 1 8 "h" example_world) as [Hiff Hs].
  assert (H : (UpdateGroup 1 8 "h" example_world).1 = Some ErrNotFound).
  { apply (proj2 Hiff). split; [reflexivity|].
    vm_compute. repeat constructor. intros [_ H]. discriminate. }
  split; [exact H | exact (Hs H)].
Defined.

(** X8: a successful [UpdateGroup] on a well-formed store changes nothing
    but the name of the owner's group with that key: every other group row,
    the members and the messages are as before, and a following [GetGroup]
    returns the group under the new name with the members it had. *)
Theorem UpdateGroup_renames (groupID userID : Z) (name : string) (w w1 : World) :
  wf_store (store w) →
  UpdateGroup groupID userID name w = (None, w1) →
  rows (chat_group (store w1)) =
    map (λ r, if is_group groupID userID r then renamed name r else r)
      (rows (chat_group (store w))) ∧
  chat_group_member (store w1) = chat_group_member (store w) ∧
  chat_group_message (store w1) = chat_group_message (store w) ∧
  (fails_within 2 (faults w1) = false →
   (GetGroup groupID userID w1).1 =
     Ok (mkGroup (ChatGroup.mk groupID userID name)
           (map ToChatGroupMember
              (List.filter (is_listed groupID) (rows (chat_group_member (store w))))))).
Proof.
  intros ((Hnd & Hids & _) & _ & _) Hrun.
  pose proof (UpdateGroup_run groupID userID name w) as H. cbv zeta in H.
  rewrite Hrun in H. simpl in H.
  destruct (faulty w); [by destruct H|].
  destruct (List.filter _ _) as [|grp rest] eqn:E; [by destruct H|].
  pose proof (filter_head_In _ _ _ _ E) as [Hin Hgrp].
  apply bool_decide_eq_true in Hgrp as [Hid Hu].
  assert (Hone : ∀ r, r ∈ rows (chat_group (store w)) →
                      ChatGroupN.Id r = Some groupID → r = grp).
  { intros r Hr Hrid. apply (NoDup_map_inj ChatGroupN.Id _ _ _ Hnd Hr Hin). congruence. }
  assert (Hrows : rows (chat_group (store w1)) =
                  map (λ r, if is_group groupID userID r then renamed name r else r)
                    (rows (chat_group (store w))) ∧
                  chat_group_member (store w1) = chat_group_member (store w) ∧
                  chat_group_message (store w1) = chat_group_message (store w)).
  { case_bool_decide as Hname.
    - destruct (faulty _); destruct H as [H Hs]; [done|]. rewrite Hs.
      rewrite Forall_forall in Hids. pose proof (Hids grp Hin) as [Hpos _].
      simpl in Hpos. rewrite Hid in Hpos. simpl in Hpos.
      rewrite (saved_keyed TChatGroup (ChatGroupN.set_Name (Some name))
                 (λ r, eq_refl) (store w) grp groupID Hid Hpos).
      simpl. repeat split. apply map_ext_in. intros r Hr%list_elem_of_In.
      case_bool_decide as Hrid.
      + rewrite (Hone r Hr Hrid). unfold is_group, renamed.
        rewrite !bool_decide_true; done.
      + unfold is_group. rewrite bool_decide_false; [done|]. by intros [? _].
    - destruct H as (_ & Hs & _). rewrite Hs. repeat split.
      rewrite (map_ext_in _ id), map_id; [done|]. intros r Hr%list_elem_of_In.
      destruct (is_group groupID userID r) eqn:Hg; [|done].
      apply bool_decide_eq_true in Hg as [Hrid _]. rewrite (Hone r Hr Hrid).
      unfold renamed. by rewrite bool_decide_false by (intros Hne; by apply Hne). }
  destruct Hrows as (Hg & Hm & Hmsg). repeat split; try done.
  intros Hok. apply fails_within_two in Hok as [Hok1 Hok2].
  rewrite GetGroup_result. unfold faulty. simpl. rewrite Hok1, Hok2, Hg, Hm.
  rewrite filter_map_selected by apply is_group_renamed. rewrite E. simpl.
  do 2 f_equal. unfold ToChatGroup. rewrite renamed_name.
  unfold renamed. case_bool_decide; simpl; by rewrite Hid, Hu.
Qed.

Lemma UpdateGroup_renames_witness :
  wf_store (store example_world) ∧
  ∃ w1, UpdateGroup 1 7 "h" example_world = (None, w1) ∧
        rows (chat_group (store w1)) = [ChatGroupN.mk (Some 1) (Some 7) (Some "h")] ∧
        ∃ grp, (GetGroup 1 7 w1).1 = Ok grp ∧
               Group_Group grp = ChatGroup.mk 1 7 "h".
Proof.
  assert (Hwf : wf_store (store example_world)).
  { apply (bool_decide_unpack _). vm_compute. exact I. }
  split; [exact Hwf|]. eexists. split; [reflexivity|].
  destruct (UpdateGroup_renames 1 7 "h" example_world _ Hwf eq_refl)
    as (Hrows & _ & _ & Hget).
  split; [rewrite Hrows; reflexivity|].
  eexists. split; [exact (Hget eq_refl) | reflexivity].
Defined.

(** X9: when the owner's group already has the name, [UpdateGroup] issues
    the one query, writes nothing and commits. *)
Theorem UpdateGroup_same_name (groupID userID : Z) (name : string) (w : World)
    (grp : ChatGroupN.t) (rest : list ChatGroupN.t) :
  faulty w = false →
  List.filter (is_group groupID userID) (rows (chat_group (store w))) = grp :: rest →
  name = null.StringValueOrZero (ChatGroupN.Name grp) →
  (UpdateGroup groupID userID name w).1 = None ∧
  store (UpdateGroup groupID userID name w).2 = store w ∧
  events_of (CallUpdateGroup groupID userID name) w =
    [EvBegin; EvCall HTx TChatGroup OpFirst; EvCommit].
Proof.
  intros Hok Hgrp Hname.
  pose proof (UpdateGroup_run groupID userID name w) as H. cbv zeta in H.
  rewrite Hok, Hgrp, bool_decide_false in H by (intros Hne; by apply Hne).
  destruct H as (Hr & Hs & Hlog). repeat split; [done | done |].
  by apply events_of_app.
Qed.

Lemma UpdateGroup_same_name_witness :
  events_of (CallUpdateGroup 1 7 "g") example_world =
    [EvBegin; EvCall HTx TChatGroup OpFirst; EvCommit].
Proof.
  by destruct (UpdateGroup_same_name 1 7 "g" example_world
                 (ChatGroupN.mk (Some 1) (Some 7) (Some "g")) []
                 eq_refl eq_refl eq_refl) as (_ & _ & H).
Defined.

(** ** Failed calls *)





(** ** Removing twice *)

Lemma is_removed_mark_deleted groupID userID memberIDs r :
  is_removed groupID userID memberIDs (mark_deleted r) = false.
Proof.
  apply bool_decide_eq_false. intros (_ & _ & H & _). simpl in H. discriminate.
Qed.

(** X11: removing the same members a second time changes nothing: after a
    successful [RemoveMembersFromGroup], a second successful call with the
    same arguments leaves the store as the first left it. *)
Theorem RemoveMembersFromGroup_idempotent (groupID userID : Z) (memberIDs : list Z)
    (w w1 w2 : World) :
  RemoveMembersFromGroup groupID userID memberIDs w = (None, w1) →
  RemoveMembersFromGroup groupID userID memberIDs w1 = (None, w2) →
  store w2 = store w1.
Proof.
  intros H1 H2.
  pose proof (RemoveMembersFromGroup_run groupID userID memberIDs w) as R1.
  pose proof (RemoveMembersFromGroup_run groupID userID memberIDs w1) as R2.
  cbv zeta in R1, R2. rewrite H1 in R1. rewrite H2 in R2. simpl in R1, R2.
  rewrite R2, R1. simpl. do 2 f_equal. rewrite map_map. apply map_ext. intros r.
  destruct (is_removed groupID userID memberIDs r) eqn:E.
  - by rewrite is_removed_mark_deleted.
  - by rewrite E.
Qed.

Lemma RemoveMembersFromGroup_idempotent_witness :
  ∃ w1 w2,
    RemoveMembersFromGroup 1 7 [2] example_world = (None, w1) ∧
    RemoveMembersFromGroup 1 7 [2] w1 = (None, w2) ∧
    store w2 = store w1 ∧ store w1 ≠ store example_world.
Proof.
  eexists _, _. split; [reflexivity|]. split; [reflexivity|].
  split; [exact (RemoveMembersFromGroup_idempotent 1 7 [2] example_world _ _
                   eq_refl eq_refl)|].
  intros H. vm_compute in H. discriminate.
Defined.
